(** * Tracked-change extraction (python-xml/docxml_parser.py)

    A shallow embedding of the tracked-change extraction engine and the
    properties its specification states about it.

    Python values are modelled as follows.
    - [str] is [string]; a character is a code point below 256, so the
      whitespace set and the case mapping below are Python's restricted to
      that range.
    - [int] is [nat] for the record counter (it starts at 1 and only grows)
      and [Z] for the window arithmetic of [get_surrounding_text].
    - a tuple [(id, text)] is a pair, a list is a [list], [None] is the
      [None] of an [option], a [dict] used as a map is a [gmap].
    - an ElementTree element is a node of [Element]: tag, attribute
      dictionary, text, children.
    - the locals of [extract_tracked_changes] that live across loop
      iterations are the fields of [locals]; a local that is read before it
      was ever assigned raises [UnboundLocalError]. *)

From Stdlib Require Import ZArith Lia Ascii.
From Stdlib Require String.
From stdpp Require Import base option list strings gmap pretty.

Local Open Scope Z_scope.
Local Open Scope nat_scope.

(** ** Python string primitives *)

Module PyStr.

(** [c.isspace()] for a code point below 256. *)
Definition isspace (c : ascii) : bool :=
  let n := nat_of_ascii c in
  ((9 <=? n) && (n <=? 13)) || ((28 <=? n) && (n <=? 32))
  || (n =? 133) || (n =? 160).

(** Truth value of a string: non-empty. *)
Definition truthy (s : string) : bool :=
  match s with
  | EmptyString => false
  | String _ _ => true
  end.

(** Truth value of a value that is [None] or a string. *)
Definition truthy_opt (o : option string) : bool :=
  match o with
  | None => false
  | Some s => truthy s
  end.

Fixpoint lstrip (s : string) : string :=
  match s with
  | EmptyString => EmptyString
  | String c s' => if isspace c then lstrip s' else s
  end.

Fixpoint rstrip (s : string) : string :=
  match s with
  | EmptyString => EmptyString
  | String c s' =>
      match rstrip s' with
      | EmptyString => if isspace c then EmptyString else String c EmptyString
      | r => String c r
      end
  end.

(** [s.strip()]. *)
Definition strip (s : string) : string := rstrip (lstrip s).

(** [s.split()]: the maximal runs of non-whitespace characters, left to
    right. [cur] holds the characters of the run being read. *)
Fixpoint split_go (cur : string) (s : string) : list string :=
  match s with
  | EmptyString => if truthy cur then [cur] else []
  | String c s' =>
      if isspace c
      then (if truthy cur then cur :: split_go EmptyString s'
            else split_go EmptyString s')
      else split_go (cur +:+ String c EmptyString) s'
  end.

Definition split (s : string) : list string := split_go EmptyString s.

(** [c.lower()] for a code point below 256: A-Z and the accented capitals
    192-222 (without the multiplication sign 215) move up by 32. *)
Definition lower_char (c : ascii) : ascii :=
  let n := nat_of_ascii c in
  if ((65 <=? n) && (n <=? 90))
     || ((192 <=? n) && (n <=? 222) && negb (n =? 215))
  then ascii_of_nat (n + 32)
  else c.

Fixpoint lower (s : string) : string :=
  match s with
  | EmptyString => EmptyString
  | String c s' => String (lower_char c) (lower s')
  end.

(** [s.startswith(p)]. *)
Definition startswith (s p : string) : bool := String.prefix p s.

(** [sep.join(l)]. *)
Fixpoint join (sep : string) (l : list string) : string :=
  match l with
  | [] => EmptyString
  | [x] => x
  | x :: l' => x +:+ sep +:+ join sep l'
  end.

Fixpoint drop (n : nat) (s : string) : string :=
  match n, s with
  | O, _ => s
  | S _, EmptyString => EmptyString
  | S k, String _ s' => drop k s'
  end.

(** The scan of [s.replace(old, new)] for a non-empty [old]: [skip] counts
    the characters of a matched occurrence that are still to be passed
    over; at [skip = 0] an occurrence of [old] starting here is replaced
    by [new], otherwise the character is copied. *)
Fixpoint replace_scan (old new : string) (skip : nat) (s : string) : string :=
  match s with
  | EmptyString => EmptyString
  | String c s' =>
      match skip with
      | S k => replace_scan old new k s'
      | O =>
          if String.prefix old s
          then new +:+ replace_scan old new (String.length old - 1) s'
          else String c (replace_scan old new 0 s')
      end
  end.

(** [s.replace("", new)] puts [new] before every character and at the
    end. *)
Fixpoint replace_empty (new : string) (s : string) : string :=
  match s with
  | EmptyString => new
  | String c s' => new +:+ String c (replace_empty new s')
  end.

(** [s.replace(old, new)]: every occurrence, leftmost first, without
    overlap. *)
Definition replace (s old new : string) : string :=
  if truthy old then replace_scan old new 0 s else replace_empty new s.

(** [l.index(x)]: the first position of [x], [None] for [ValueError]. *)
Fixpoint index (l : list string) (x : string) : option nat :=
  match l with
  | [] => None
  | y :: l' => if decide (y = x) then Some 0 else S <$> index l' x
  end.

(** A slice bound [i] of a sequence of length [len], as Python clamps it. *)
Definition slice_bound (len i : Z) : Z :=
  if (i <? 0)%Z then Z.max 0 (i + len) else Z.min i len.

(** [l[start:stop]]. *)
Definition slice {A} (l : list A) (start stop : Z) : list A :=
  let len := Z.of_nat (length l) in
  let a := slice_bound len start in
  let b := slice_bound len stop in
  take (Z.to_nat (b - a)) (List.skipn (Z.to_nat a) l).

(** [str(n)] for a non-negative integer. *)
Definition str (n : nat) : string := pretty n.

End PyStr.

(** ** The helper functions *)

(** [extract_text_from_runs]: a run is represented by its [text], which is
    [None] or a string; runs without text or with empty text are skipped. *)
Definition extract_text_from_runs (runs : list (option string)) : string :=
  PyStr.join EmptyString
    (omap (fun t => if PyStr.truthy_opt t then t else None) runs).

(** [get_surrounding_text]; the [ValueError] of [words.index] is the [None]
    branch. *)
Definition get_surrounding_text (text target : string) (window : Z) : string :=
  if negb (PyStr.truthy (PyStr.strip target)) then text
  else
    let words := PyStr.split text in
    let target_words := PyStr.split target in
    match target_words with
    | [] => text
    | first :: _ =>
        match PyStr.index words first with
        | Some index =>
            let start := Z.max 0 (Z.of_nat index - window) in
            let end_ := Z.min (Z.of_nat (length words))
                          (Z.of_nat index + window + Z.of_nat (length target_words)) in
            PyStr.join EmptyString (PyStr.slice words start end_)
        | None => text
        end
    end.

Definition default_window : Z := 5.

Definition is_partial_word_modification (original corrected : string) : bool :=
  if negb (String.length original =? String.length corrected)
     && PyStr.startswith (PyStr.lower original) (PyStr.lower corrected)
  then true
  else false.

(** The loop of [merge_deletions]: [merged] is the output built so far,
    [current_del] the accumulator. *)
Fixpoint merge_loop (merged : list (string * string)) (current_del : string * string)
    (rest : list (string * string)) : list (string * string) :=
  match rest with
  | [] => merged ++ [current_del]
  | next_del :: rest' =>
      if decide (current_del.1 = next_del.1)
      then merge_loop merged
             (current_del.1, current_del.2 +:+ " " +:+ next_del.2) rest'
      else merge_loop (merged ++ [current_del]) next_del rest'
  end.

Definition merge_deletions (deletions : list (string * string)) : list (string * string) :=
  match deletions with
  | [] => []
  | first :: rest => merge_loop [] first rest
  end.

(** ** The element tree *)

(** An ElementTree element. The tail text plays no part in the extraction
    and is left out. *)
Local Unset Elimination Schemes.

Inductive Element : Type :=
  mkElement {
    tag : string;
    attrib : gmap string string;
    text : option string;
    children : list Element
  }.

Local Set Elimination Schemes.

(** [e.iter()]: the element and its descendants in document order. *)
Fixpoint iter (e : Element) : list Element :=
  match e with
  | mkElement _ _ _ cs => e :: List.flat_map iter cs
  end.

(** The namespace map [ns] of [extract_tracked_changes] has the one prefix
    [w]; a path step [w:name] stands for the tag [{uri}name]. *)
Definition ns_w : string :=
  "http://schemas.openxmlformats.org/wordprocessingml/2006/main".

Definition qname (name : string) : string := "{" +:+ ns_w +:+ "}" +:+ name.

(** [e.findall('.//w:name', ns)]: the descendants of [e] with that tag, in
    document order; [e] itself is not among them. *)
Definition findall (e : Element) (name : string) : list Element :=
  filter (fun x => tag x = qname name) (List.flat_map iter (children e)).

(** ** Records and the state of the extraction *)

(** The four values of the [change_type] column: ["deletion"],
    ["insertion"], ["both"] and ["partial-word modification"]. *)
Inductive ChangeType : Type :=
  | deletion
  | insertion
  | both
  | partial_word_modification.

(** One row of [data]; the fields are the keys of the dictionary. *)
Record ChangeRecord : Type := mkChangeRecord {
  ID : nat;
  original_single : option string;
  original_partial : string;
  original_sentence : string;
  correction_single : option string;
  correction_partial : string;
  corrected_sentence : string;
  change_type : ChangeType
}.

(** The locals of [extract_tracked_changes] that outlive a loop iteration.
    [original_partial] and [corrected_sentence] are unbound ([None]) until
    their first assignment and keep their value afterwards, also from one
    paragraph to the next. *)
Record locals : Type := mkLocals {
  var_data : list ChangeRecord;
  var_unique_id : nat;
  var_original_partial : option string;
  var_corrected_sentence : option string
}.

Inductive exn : Type :=
  | UnboundLocalError (name : string).

(** Computations over the locals that may raise. *)
Definition M (A : Type) : Type := locals -> exn + (A * locals).

Definition ret {A} (a : A) : M A := fun st => inr (a, st).

Definition bind {A B} (c : M A) (k : A -> M B) : M B :=
  fun st =>
    match c st with
    | inl e => inl e
    | inr (a, st') => k a st'
    end.

Notation "x <- c ;; k" := (bind c (fun x => k))
  (at level 100, c at next level, right associativity).
Notation "c ;; k" := (bind c (fun _ => k))
  (at level 100, right associativity).

Definition get_unique_id : M nat := fun st => inr (var_unique_id st, st).

Definition read_original_partial : M string :=
  fun st =>
    match var_original_partial st with
    | Some v => inr (v, st)
    | None => inl (UnboundLocalError "original_partial")
    end.

Definition read_corrected_sentence : M string :=
  fun st =>
    match var_corrected_sentence st with
    | Some v => inr (v, st)
    | None => inl (UnboundLocalError "corrected_sentence")
    end.

Definition assign_original_partial (v : string) : M unit :=
  fun st =>
    inr (tt, mkLocals (var_data st) (var_unique_id st) (Some v)
               (var_corrected_sentence st)).

Definition assign_corrected_sentence (v : string) : M unit :=
  fun st =>
    inr (tt, mkLocals (var_data st) (var_unique_id st)
               (var_original_partial st) (Some v)).

(** [data.append(r)]. *)
Definition data_append (r : ChangeRecord) : M unit :=
  fun st =>
    inr (tt, mkLocals (var_data st ++ [r]) (var_unique_id st)
               (var_original_partial st) (var_corrected_sentence st)).

(** [unique_id += 1]. *)
Definition incr_unique_id : M unit :=
  fun st =>
    inr (tt, mkLocals (var_data st) (S (var_unique_id st))
               (var_original_partial st) (var_corrected_sentence st)).

(** [for x in l: body(x)]. *)
Fixpoint for_each {A} (l : list A) (body : A -> M unit) : M unit :=
  match l with
  | [] => ret tt
  | x :: l' => body x ;; for_each l' body
  end.

(** ** extract_tracked_changes *)

(** The two scanning loops (lines 85-89 and 95-99): the revision elements
    [w:mark] of the paragraph, each with the value of its [w:id] key, or
    [fallback] when the dictionary has no such key, and the joined text of
    its [w:text] descendants; a mark with empty text is skipped. *)
Definition scan_marks (paragraph : Element) (mark text_tag : string)
    (fallback : string) : list (string * string) :=
  omap (fun el =>
          let mark_id := default fallback (attrib el !! "w:id") in
          let mark_text := extract_text_from_runs (text <$> findall el text_tag) in
          if PyStr.truthy mark_text then Some (mark_id, mark_text) else None)
       (findall paragraph mark).

(** [next((ins_text for ins_id, ins_text in insertions if ins_id == del_id), None)]. *)
Definition matching_insert (insertions : list (string * string)) (del_id : string)
    : option string :=
  snd <$> List.find (fun i => bool_decide (i.1 = del_id)) insertions.

(** [any(del_id == ins_id for del_id, _ in deletions)]. *)
Definition any_deletion (deletions : list (string * string)) (ins_id : string) : bool :=
  existsb (fun d => bool_decide (d.1 = ins_id)) deletions.

(** Lines 103-111: the default type and the correction of a deletion. *)
Definition correlate (insertions : list (string * string)) (del_id : string)
    : ChangeType * option string :=
  let found := matching_insert insertions del_id in
  if PyStr.truthy_opt found then (both, found) else (deletion, None).

(** [correction_single if correction_single else ""] (line 115). *)
Definition replacement_text (correction_single : option string) : string :=
  if PyStr.truthy_opt correction_single
  then default EmptyString correction_single
  else EmptyString.

(** Lines 117-119: the override of the type. *)
Definition reclassify (del_text : string) (correction_single : option string)
    (change_type : ChangeType) : ChangeType :=
  match correction_single with
  | Some c =>
      if PyStr.truthy c && is_partial_word_modification del_text c
      then partial_word_modification
      else change_type
  | None => change_type
  end.

(** The body of the loop over the merged deletions (lines 102-132). *)
Definition process_deletion (full_text : string) (insertions : list (string * string))
    (d : string * string) : M unit :=
  let del_id := d.1 in
  let del_text := d.2 in
  let change_type := (correlate insertions del_id).1 in
  let correction_single := (correlate insertions del_id).2 in
  (if PyStr.truthy (PyStr.strip del_text)
   then
     assign_original_partial (get_surrounding_text full_text del_text default_window) ;;
     assign_corrected_sentence
       (PyStr.replace full_text del_text (replacement_text correction_single))
   else ret tt) ;;
  let change_type := reclassify del_text correction_single change_type in
  uid <- get_unique_id ;;
  op <- read_original_partial ;;
  cs <- read_corrected_sentence ;;
  data_append (mkChangeRecord uid (Some del_text) op full_text
                 correction_single cs cs change_type) ;;
  incr_unique_id.

(** The body of the loop over the insertions (lines 134-151). *)
Definition process_insertion (full_text : string) (deletions : list (string * string))
    (i : string * string) : M unit :=
  let ins_id := i.1 in
  let ins_text := i.2 in
  if negb (any_deletion deletions ins_id)
  then
    assign_original_partial (get_surrounding_text full_text ins_text default_window) ;;
    assign_corrected_sentence (PyStr.replace full_text ins_text ins_text) ;;
    uid <- get_unique_id ;;
    op <- read_original_partial ;;
    op' <- read_original_partial ;;
    cs <- read_corrected_sentence ;;
    data_append (mkChangeRecord uid None op full_text (Some ins_text)
                   (PyStr.replace op' ins_text ins_text) cs insertion) ;;
    incr_unique_id
  else ret tt.

(** The body of the loop over the paragraphs (lines 80-151). *)
Definition process_paragraph (paragraph : Element) : M unit :=
  let full_text := extract_text_from_runs (text <$> findall paragraph "t") in
  uid <- get_unique_id ;;
  let deletions := scan_marks paragraph "del" "delText" (PyStr.str uid) in
  let deletions := merge_deletions deletions in
  uid' <- get_unique_id ;;
  let insertions := scan_marks paragraph "ins" "t" (PyStr.str uid') in
  for_each deletions (process_deletion full_text insertions) ;;
  for_each insertions (process_insertion full_text deletions).

Definition initial_locals : locals := mkLocals [] 1 None None.

(** [extract_tracked_changes] from line 75 on, given the parsed [root]: the
    rows of the returned table, or the exception that ends the call. *)
Definition extract_tracked_changes (root : Element) : exn + list ChangeRecord :=
  match for_each (findall root "p") process_paragraph initial_locals with
  | inl e => inl e
  | inr (_, st) => inr (var_data st)
  end.

(** ** Sample documents *)

(** The attribute dictionary of a mark built by hand: [Some v] puts [v]
    under the literal key [w:id], the key that lines 86 and 96 look up. A
    parsed element never has that key, see [parsed_id_attrib]; the
    identifiers of the samples built with [Some v] are those of such a
    hand-built tree. *)
Definition id_attrib (mark_id : option string) : gmap string string :=
  match mark_id with
  | Some v => {[ "w:id" := v ]}
  | None => empty
  end.

(** A run [<w:r><w:t>s</w:t></w:r>]. *)
Definition run_t (s : string) : Element :=
  mkElement (qname "r") empty None [mkElement (qname "t") empty (Some s) []].

(** A deletion mark [<w:del><w:r><w:delText>s</w:delText></w:r></w:del>]. *)
Definition del_mark (mark_id : option string) (s : string) : Element :=
  mkElement (qname "del") (id_attrib mark_id) None
    [mkElement (qname "r") empty None
       [mkElement (qname "delText") empty (Some s) []]].

(** An insertion mark [<w:ins><w:r><w:t>s</w:t></w:r></w:ins>]. *)
Definition ins_mark (mark_id : option string) (s : string) : Element :=
  mkElement (qname "ins") (id_attrib mark_id) None [run_t s].

Definition para (cs : list Element) : Element :=
  mkElement (qname "p") empty None cs.

Definition document (ps : list Element) : Element :=
  mkElement (qname "document") empty None
    [mkElement (qname "body") empty None ps].

(** The attribute dictionary of a parsed element that declares [w:id]:
    the parser stores a prefixed attribute under its expanded name
    [{uri}id], so the dictionary has no key [w:id]. *)
Definition parsed_id_attrib (v : string) : gmap string string :=
  {[ qname "id" := v ]}.

(** The marks of a parsed document, [<w:del w:id="v">] and
    [<w:ins w:id="v">]. *)
Definition parsed_del_mark (v s : string) : Element :=
  mkElement (qname "del") (parsed_id_attrib v) None
    [mkElement (qname "r") empty None
       [mkElement (qname "delText") empty (Some s) []]].

Definition parsed_ins_mark (v s : string) : Element :=
  mkElement (qname "ins") (parsed_id_attrib v) None [run_t s].

(** A parsed paragraph with a deletion declaring the id 5 and an insertion
    declaring the id 6. *)
Definition declared_ids_paragraph : Element :=
  para [run_t "x "; parsed_del_mark "5" "old"; parsed_ins_mark "6" "new"].

(** A paragraph with three deletions, the first and the third under one
    identifier but not adjacent, an insertion under that identifier and an
    insertion under an identifier of its own. *)
Definition sample_paragraph : Element :=
  para [run_t "the cat the dog ";
        del_mark (Some "1") "the"; ins_mark (Some "1") "a";
        del_mark (Some "2") "sat"; del_mark (Some "1") "dog";
        ins_mark (Some "9") "newly"].

(** A document of three paragraphs, the second without any edit, the third
    with a replacement that trims a word. *)
Definition sample_document : Element :=
  document [sample_paragraph;
            para [run_t "nothing here"];
            para [run_t "x"; del_mark (Some "5") "testing"; ins_mark (Some "5") "test"]].

(** A paragraph whose text has the deleted snippet twice. *)
Definition repeated_snippet_document : Element :=
  document [para [run_t "the cat the dog"; del_mark (Some "1") "the"]].

(** An insertion of a single space. *)
Definition blank_insertion_paragraph : Element :=
  para [run_t "a"; ins_mark (Some "7") " "; run_t "b"].

(** A deletion of a single space, the first edit of the document. *)
Definition blank_deletion_document : Element :=
  document [para [run_t "a"; del_mark (Some "3") " "; run_t "b"]].

(** A deletion of a single space that follows an earlier edit. *)
Definition late_blank_deletion_document : Element :=
  document [para [run_t "one two"; del_mark (Some "1") "two"];
            para [run_t "a"; del_mark (Some "3") " "; run_t "b"]].

(** Marks without an id attribute: two deletions, then a deletion and an
    insertion. *)
Definition no_id_deletions_paragraph : Element :=
  para [del_mark None "a"; del_mark None "b"].

Definition no_id_pair_paragraph : Element :=
  para [del_mark None "old"; ins_mark None "new"].

(** ** Definitions that follow the wording of the specification *)

(** The deletion merger as the specification describes it: the accumulator
    [current] is flushed in front of what the rest of the scan produces. *)
Fixpoint merge_from (current : string * string) (rest : list (string * string))
    : list (string * string) :=
  match rest with
  | [] => [current]
  | next :: rest' =>
      if decide (current.1 = next.1)
      then merge_from (current.1, current.2 +:+ " " +:+ next.2) rest'
      else current :: merge_from next rest'
  end.

(** A list of identifiers with every run of equal neighbours reduced to one
    of them. *)
Fixpoint collapse_runs (ids : list string) : list string :=
  match ids with
  | [] => []
  | x :: ids' =>
      match ids' with
      | [] => [x]
      | y :: _ => if decide (x = y) then collapse_runs ids' else x :: collapse_runs ids'
      end
  end.

(** The text with only the first occurrence of a non-empty [old] replaced
    by [new], which is how the specification words the corrected
    sentence. *)
Fixpoint replace_first_occurrence (s old new : string) : string :=
  match s with
  | EmptyString => EmptyString
  | String c s' =>
      if String.prefix old s
      then new +:+ PyStr.drop (String.length old) s
      else String c (replace_first_occurrence s' old new)
  end.

(** [ReplacedAll old new s r]: [r] is [s] read from the left, where each
    occurrence of [old] met is replaced by [new] and reading goes on behind
    it, and any other character is copied. *)
Inductive ReplacedAll (old new : string) : string -> string -> Prop :=
  | RA_end : ReplacedAll old new EmptyString EmptyString
  | RA_hit rest r :
      ReplacedAll old new rest r ->
      ReplacedAll old new (old +:+ rest) (new +:+ r)
  | RA_copy c s r :
      String.prefix old (String c s) = false ->
      ReplacedAll old new s r ->
      ReplacedAll old new (String c s) (String c r).

(** Every character of a string is whitespace. *)
Fixpoint all_space (s : string) : bool :=
  match s with
  | EmptyString => true
  | String c s' => PyStr.isspace c && all_space s'
  end.

(** [sub] occurs in [s]. *)
Fixpoint occurs (sub s : string) : bool :=
  String.prefix sub s
  || match s with
     | EmptyString => false
     | String _ s' => occurs sub s'
     end.

(** The text, the merged deletions and the insertions of a paragraph that
    is scanned while the record counter stands at [uid] (lines 80-99). *)
Definition paragraph_text (paragraph : Element) : string :=
  extract_text_from_runs (text <$> findall paragraph "t").

Definition paragraph_deletions (paragraph : Element) (uid : nat)
    : list (string * string) :=
  merge_deletions (scan_marks paragraph "del" "delText" (PyStr.str uid)).

Definition paragraph_insertions (paragraph : Element) (uid : nat)
    : list (string * string) :=
  scan_marks paragraph "ins" "t" (PyStr.str uid).

(** [r] is a row that the loop over the merged deletions appends for the
    deletion [d]. *)
Definition deletion_row (full_text : string) (insertions : list (string * string))
    (d : string * string) (r : ChangeRecord) : Prop :=
  original_single r = Some d.2
  /\ original_sentence r = full_text
  /\ correction_single r = (correlate insertions d.1).2
  /\ change_type r
     = reclassify d.2 (correlate insertions d.1).2 (correlate insertions d.1).1
  /\ correction_partial r = corrected_sentence r
  /\ (PyStr.truthy (PyStr.strip d.2) = true ->
      original_partial r = get_surrounding_text full_text d.2 default_window
      /\ corrected_sentence r
         = PyStr.replace full_text d.2
             (replacement_text (correlate insertions d.1).2)).

(** [r] is the row that the loop over the insertions appends for the
    insertion [i]. *)
Definition insertion_row (full_text : string) (i : string * string)
    (r : ChangeRecord) : Prop :=
  original_single r = None
  /\ original_sentence r = full_text
  /\ correction_single r = Some i.2
  /\ change_type r = insertion
  /\ original_partial r = get_surrounding_text full_text i.2 default_window
  /\ correction_partial r = PyStr.replace (original_partial r) i.2 i.2
  /\ corrected_sentence r = PyStr.replace full_text i.2 i.2.

(** The insertions that get a row of their own: those whose identifier is
    the identifier of no merged deletion. *)
Definition standalone (deletions insertions : list (string * string))
    : list (string * string) :=
  List.filter (fun i => negb (any_deletion deletions i.1)) insertions.

(** [r] is a row of some paragraph of the document. *)
Definition emitted (r : ChangeRecord) : Prop :=
  exists paragraph uid,
    (exists d, List.In d (paragraph_deletions paragraph uid)
               /\ deletion_row (paragraph_text paragraph)
                    (paragraph_insertions paragraph uid) d r)
    \/ (exists i, List.In i (standalone (paragraph_deletions paragraph uid)
                               (paragraph_insertions paragraph uid))
                  /\ insertion_row (paragraph_text paragraph) i r).

(** ** Further notions used in the statements *)

(** Some character of the string is whitespace. *)
Fixpoint has_space (s : string) : bool :=
  match s with
  | EmptyString => false
  | String c s' => PyStr.isspace c || has_space s'
  end.

(** The number of characters in a list of strings. *)
Fixpoint total_length (l : list string) : nat :=
  match l with
  | [] => 0
  | x :: l' => String.length x + total_length l'
  end.

(** No two neighbours of the list carry the same identifier. *)
Fixpoint adjacent_distinct (l : list (string * string)) : Prop :=
  match l with
  | [] => True
  | x :: l' =>
      match l' with
      | [] => True
      | y :: _ => x.1 <> y.1 /\ adjacent_distinct l'
      end
  end.

(** The proper descendants of an element in document order, which is what
    the path [.//] ranges over. *)
Definition descendants (e : Element) : list Element :=
  List.flat_map iter (children e).

(** A paragraph with a text box: the box holds a paragraph of its own with
    one deletion. *)
Definition inner_paragraph : Element :=
  para [run_t "in the box"; parsed_del_mark "4" "gone"].

Definition outer_paragraph : Element :=
  para [run_t "around ";
        mkElement (qname "r") empty None
          [mkElement (qname "txbxContent") empty None [inner_paragraph]]].

(** Both context variables of [extract_tracked_changes] have been
    assigned. *)
Definition context_bound (st : locals) : Prop :=
  is_Some (var_original_partial st) /\ is_Some (var_corrected_sentence st).



(** ** The driver (lines 157-180) *)

(** [s.endswith(suffix)]. *)
Definition str_endswith (s suffix : string) : bool :=
  (String.length suffix <=? String.length s)
  && String.eqb (PyStr.drop (String.length s - String.length suffix) s) suffix.

(** What the driver has done so far: the counter [files_processed], the
    files whose table was saved, each with its publication folder (the
    table goes to the file named after the folder), and the files reported
    by the [except] branch. *)
Record driver : Type := mkDriver {
  files_processed : nat;
  saved : list (string * string);
  reported : list string
}.

Section Driver.

(** Whether the body of the [try] (lines 167-171: extraction and saving)
    runs through for a file of a folder; [false] stands for any
    exception. *)
Variable attempt : string -> string -> bool.

(** The loop over the files of one folder (lines 164-177): the first file
    named [CORR_....docx] whose attempt succeeds ends the loop. *)
Fixpoint scan_folder (publication_folder : string) (files : list string)
    (st : driver) : driver :=
  match files with
  | [] => st
  | file :: rest =>
      if str_endswith file ".docx" && PyStr.startswith file "CORR_"
      then
        if attempt publication_folder file
        then mkDriver (S (files_processed st))
               (saved st ++ [(publication_folder, file)]) (reported st)
        else scan_folder publication_folder rest
               (mkDriver (files_processed st) (saved st) (reported st ++ [file]))
      else scan_folder publication_folder rest st
  end.

(** The loop over the folders (lines 163-180). An entry of the listing is a
    name in [proof_dir] with the names inside it, or [None] when listing it
    raises; that exception ends the run. The names in [proof_dir] are the
    input: the call [os.listdir(proof_dir)] itself comes before the loop,
    and a run in which it raises is not a run of this function. *)
Fixpoint main_loop (max_files : nat) (listing : list (string * option (list string)))
    (st : driver) : string + driver :=
  match listing with
  | [] => inr st
  | (publication_folder, None) :: _ => inl publication_folder
  | (publication_folder, Some files) :: rest =>
      let st' := scan_folder publication_folder files st in
      if max_files <=? files_processed st' then inr st'
      else main_loop max_files rest st'
  end.

Definition max_files : nat := 10.

Definition main (listing : list (string * option (list string))) : string + driver :=
  main_loop max_files listing (mkDriver 0 [] []).

End Driver.

(** The name test of line 165. *)
Definition wanted_name (file : string) : bool :=
  str_endswith file ".docx" && PyStr.startswith file "CORR_".

(** Sample runs of the driver: only the file [CORR_b.docx] can be
    processed. *)
Definition sample_attempt (publication_folder file : string) : bool :=
  String.eqb file "CORR_b.docx".

Definition sample_listing : list (string * option (list string)) :=
  [("pub1", Some ["notes.txt"; "CORR_a.docx"; "CORR_b.docx"; "CORR_c.docx"]);
   ("pub2", Some ["readme.md"]);
   ("pub3", Some ["CORR_b.docx"])].

(** Ten folders with a file that can be processed. *)
Definition full_listing : list (string * option (list string)) :=
  (fun n => (PyStr.str n, Some ["CORR_b.docx"])) <$> seq 0 10.

(** ** Facts about the string primitives *)

Section StringFacts.

Import PyStr.

Lemma app_cons c (s t : string) : String c s +:+ t = String c (s +:+ t).
Proof. reflexivity. Qed.

Lemma app_empty_r (s : string) : s +:+ EmptyString = s.
Proof. induction s as [|c s IH]; [reflexivity|]. rewrite app_cons, IH. reflexivity. Qed.

Lemma app_assoc_str (s t u : string) : (s +:+ t) +:+ u = s +:+ t +:+ u.
Proof.
  induction s as [|c s IH]; [reflexivity|].
  rewrite !app_cons, IH. reflexivity.
Qed.

Lemma length_app_str (s t : string) :
  String.length (s +:+ t) = String.length s + String.length t.
Proof.
  induction s as [|c s IH]; [reflexivity|].
  rewrite app_cons. simpl. rewrite IH. reflexivity.
Qed.

Lemma truthy_true (s : string) : truthy s = true <-> s <> EmptyString.
Proof. destruct s; simpl; split; congruence. Qed.

Lemma truthy_false (s : string) : truthy s = false <-> s = EmptyString.
Proof. destruct s; simpl; split; congruence. Qed.

Lemma truthy_app_r (s t : string) : truthy t = true -> truthy (s +:+ t) = true.
Proof. destruct s; [trivial|reflexivity]. Qed.

Lemma truthy_app_l (s t : string) : truthy s = true -> truthy (s +:+ t) = true.
Proof. destruct s; [discriminate|reflexivity]. Qed.

Lemma prefix_app (old rest : string) : String.prefix old (old +:+ rest) = true.
Proof.
  induction old as [|c old IH]; [destruct rest; reflexivity|].
  rewrite app_cons. simpl. destruct (ascii_dec c c); [exact IH|congruence].
Qed.

Lemma prefix_split (old s : string) :
  String.prefix old s = true -> exists rest, s = old +:+ rest.
Proof.
  revert s. induction old as [|c old IH]; intros s H.
  - exists s. reflexivity.
  - destruct s as [|b s]; [discriminate|]. simpl in H.
    destruct (ascii_dec c b) as [->|]; [|discriminate].
    destruct (IH s H) as [rest ->]. exists rest. reflexivity.
Qed.

Lemma drop_app (old rest : string) : drop (String.length old) (old +:+ rest) = rest.
Proof.
  induction old as [|c old IH]; [destruct rest; reflexivity|].
  rewrite app_cons. simpl. exact IH.
Qed.

(** *** replace *)

Lemma replace_scan_skip old new s k :
  replace_scan old new k s = replace_scan old new 0 (drop k s).
Proof.
  revert k. induction s as [|c s IH]; intros [|k]; try reflexivity.
  simpl. apply IH.
Qed.

Lemma replace_scan_hit old new rest :
  truthy old = true ->
  replace_scan old new 0 (old +:+ rest) = new +:+ replace_scan old new 0 rest.
Proof.
  intros Hold. destruct old as [|c old]; [discriminate|].
  pose proof (prefix_app (String c old) rest) as Hp.
  rewrite app_cons in Hp |- *.
  cbn [replace_scan]. rewrite Hp. f_equal.
  rewrite replace_scan_skip. cbn [String.length]. rewrite Nat.sub_succ, Nat.sub_0_r.
  rewrite drop_app. reflexivity.
Qed.

Lemma replace_scan_copy old new c s :
  String.prefix old (String c s) = false ->
  replace_scan old new 0 (String c s) = String c (replace_scan old new 0 s).
Proof. intros Hp. cbn [replace_scan]. rewrite Hp. reflexivity. Qed.

Lemma replace_scan_spec old new :
  truthy old = true -> forall s, ReplacedAll old new s (replace_scan old new 0 s).
Proof.
  intros Hold s.
  remember (String.length s) as n eqn:Hn.
  revert s Hn. induction n as [n IH] using lt_wf_ind. intros s Hn.
  destruct s as [|c s]; [constructor|].
  destruct (String.prefix old (String c s)) eqn:Hp.
  - destruct (prefix_split _ _ Hp) as [rest Hrest]. rewrite Hrest.
    rewrite replace_scan_hit by exact Hold.
    constructor. apply (IH (String.length rest)); [|reflexivity].
    subst n. rewrite Hrest, length_app_str.
    destruct old; [discriminate|]. simpl. lia.
  - rewrite replace_scan_copy by exact Hp.
    constructor; [exact Hp|].
    apply (IH (String.length s)); [subst n; simpl; lia|reflexivity].
Qed.

Lemma ReplacedAll_same old s r : ReplacedAll old old s r -> r = s.
Proof. induction 1; congruence. Qed.

(** For a non-empty [old] the relation has one result only. *)
Lemma ReplacedAll_functional old new s r1 r2 :
  truthy old = true ->
  ReplacedAll old new s r1 -> ReplacedAll old new s r2 -> r1 = r2.
Proof.
  intros Hold H1. revert r2.
  induction H1 as [|rest r H1 IH|c s r Hp H1 IH]; intros r2 H2.
  - inversion H2 as [|rest' r' H' Heq|]; [reflexivity|].
    destruct old; [discriminate|discriminate].
  - inversion H2 as [Heq|rest' r' H' Heq|c s r' Hp H' Heq].
    + destruct old; discriminate.
    + apply String.app_inj in Heq. subst rest'. f_equal. apply IH, H'.
    + rewrite Heq, prefix_app in Hp. discriminate.
  - inversion H2 as [|rest' r' H' Heq|c' s' r' Hp' H' Heq]; subst.
    + rewrite <- Heq, prefix_app in Hp. discriminate.
    + f_equal. apply IH, H'.
Qed.

Lemma replace_empty_same s : replace_empty EmptyString s = s.
Proof. induction s as [|c s IH]; [reflexivity|]. simpl. rewrite IH. reflexivity. Qed.

Lemma replace_same s x : replace s x x = s.
Proof.
  unfold replace. destruct (truthy x) eqn:Hx.
  - apply (ReplacedAll_same x), replace_scan_spec, Hx.
  - apply truthy_false in Hx. subst x. apply replace_empty_same.
Qed.

Lemma replace_spec s old new :
  truthy old = true -> ReplacedAll old new s (replace s old new).
Proof. intros Hold. unfold replace. rewrite Hold. apply replace_scan_spec, Hold. Qed.

End StringFacts.

(** ** The primitives on sample inputs *)

Example split_sample : PyStr.split "  The quick  brown fox " = ["The"; "quick"; "brown"; "fox"].
Proof. reflexivity. Qed.

Example strip_sample : PyStr.strip "  a b  " = "a b".
Proof. reflexivity. Qed.

Example lower_sample : PyStr.lower "Testing COLOUR" = "testing colour".
Proof. reflexivity. Qed.

Example replace_sample_overlap : PyStr.replace "aaa" "aa" "b" = "ba".
Proof. reflexivity. Qed.

Example replace_sample_empty_old : PyStr.replace "abc" "" "-" = "-a-b-c-".
Proof. reflexivity. Qed.

Example replace_sample_all : PyStr.replace "the cat the dog" "the" "a" = "a cat a dog".
Proof. reflexivity. Qed.

Example str_sample : PyStr.str 120 = "120".
Proof. reflexivity. Qed.

Example slice_sample : PyStr.slice [1; 2; 3; 4; 5] 1 4 = [2; 3; 4].
Proof. reflexivity. Qed.

Example extract_text_from_runs_sample :
  extract_text_from_runs [Some "ab"; None; Some ""; Some "cd"] = "abcd".
Proof. reflexivity. Qed.

(** ** strip, split and index *)

Section WordFacts.

Import PyStr.

Lemma rstrip_empty (s : string) : rstrip s = EmptyString <-> all_space s = true.
Proof.
  induction s as [|c s IH]; [simpl; tauto|].
  simpl. destruct (rstrip s) eqn:Hr.
  - destruct (isspace c); simpl; [tauto|]. split; discriminate.
  - split; [discriminate|]. intros H. apply andb_true_iff in H as [_ H].
    apply IH in H. discriminate.
Qed.

Lemma lstrip_all_space (s : string) : all_space s = true -> lstrip s = EmptyString.
Proof.
  induction s as [|c s IH]; [reflexivity|]. simpl.
  intros H. apply andb_true_iff in H as [-> H]. apply IH, H.
Qed.

Lemma lstrip_not_all_space (s : string) :
  all_space s = false ->
  exists c r, lstrip s = String c r /\ isspace c = false.
Proof.
  induction s as [|c s IH]; [discriminate|]. simpl.
  destruct (isspace c) eqn:Hc; simpl; [exact IH|].
  intros _. exists c, s. split; [reflexivity|exact Hc].
Qed.

(** [s.strip()] is empty exactly when [s] has whitespace only. *)
Lemma strip_empty (s : string) : truthy (strip s) = false <-> all_space s = true.
Proof.
  unfold strip. rewrite truthy_false. destruct (all_space s) eqn:Hs.
  - rewrite lstrip_all_space by exact Hs. simpl. tauto.
  - destruct (lstrip_not_all_space s Hs) as (c & r & -> & Hc).
    split; [|discriminate]. intros H. apply rstrip_empty in H.
    simpl in H. rewrite Hc in H. discriminate.
Qed.

Lemma split_go_nil (cur s : string) :
  split_go cur s = [] <-> cur = EmptyString /\ all_space s = true.
Proof.
  revert cur. induction s as [|c s IH]; intros cur.
  - simpl. destruct cur; simpl; split; try tauto; try discriminate.
    intros [? _]. discriminate.
  - simpl. destruct (isspace c) eqn:Hc; simpl.
    + destruct cur as [|a cur]; simpl.
      * rewrite IH. tauto.
      * split; [discriminate|]. intros [? _]. discriminate.
    + rewrite IH. split; [|intros [_ ?]; discriminate].
      intros [H _]. destruct cur; discriminate.
Qed.

(** [s.split()] is empty exactly when [s] has whitespace only. *)
Lemma split_nil (s : string) : split s = [] <-> all_space s = true.
Proof. unfold split. rewrite split_go_nil. tauto. Qed.

Lemma index_Some (l : list string) (x : string) (i : nat) :
  index l x = Some i <->
  l !! i = Some x /\ forall j, j < i -> l !! j <> Some x.
Proof.
  revert i. induction l as [|y l IH]; intros i; simpl.
  - split; [discriminate|]. intros [H _]. destruct i; discriminate.
  - destruct (decide (y = x)) as [->|Hne].
    + split.
      * intros [= <-]. split; [reflexivity|]. intros j Hj. lia.
      * intros [Hi Hfirst]. destruct i as [|i]; [reflexivity|].
        exfalso. apply (Hfirst 0); [lia|reflexivity].
    + destruct (index l x) as [k|] eqn:Hk; simpl.
      * split.
        -- intros [= <-]. destruct (proj1 (IH k) eq_refl) as [Hl Hfirst].
           split; [exact Hl|]. intros [|j] Hj; simpl; [congruence|].
           apply Hfirst. lia.
        -- intros [Hi Hfirst]. destruct i as [|i]; [simpl in Hi; congruence|].
           f_equal. assert (Some k = Some i) as [= ->]; [|reflexivity].
           apply IH. split; [exact Hi|]. intros j Hj.
           apply (Hfirst (S j)). lia.
      * split; [discriminate|]. intros [Hi Hfirst].
        destruct i as [|i]; [simpl in Hi; congruence|].
        assert (None = Some i) as H; [|discriminate].
        apply IH. split; [exact Hi|]. intros j Hj. apply (Hfirst (S j)). lia.
Qed.

Lemma index_None (l : list string) (x : string) :
  index l x = None <-> ~ List.In x l.
Proof.
  induction l as [|y l IH]; simpl; [tauto|].
  destruct (decide (y = x)) as [->|Hne].
  - split; [discriminate|]. intros H. exfalso. apply H. left. reflexivity.
  - destruct (index l x); simpl.
    + split; [discriminate|]. intros H. exfalso.
      assert (~ List.In x l) as H' by tauto. apply IH in H'. discriminate.
    + split; [|reflexivity]. intros _ [H|H]; [congruence|].
      revert H. apply IH. reflexivity.
Qed.

Lemma slice_inside {A} (l : list A) (a b : Z) :
  (0 <= a)%Z -> (0 <= b <= Z.of_nat (length l))%Z ->
  slice l a b = take (Z.to_nat b - Z.to_nat a) (List.skipn (Z.to_nat a) l).
Proof.
  intros Ha Hb. unfold slice, slice_bound.
  destruct (Z.ltb_spec a 0); [lia|]. destruct (Z.ltb_spec b 0); [lia|].
  rewrite (Z.min_l b) by lia.
  destruct (Z.le_gt_cases a (Z.of_nat (length l))).
  - rewrite Z.min_l by lia. f_equal. lia.
  - rewrite Z.min_r by lia.
    rewrite !List.skipn_all2 by lia. rewrite !take_nil. reflexivity.
Qed.

End WordFacts.

(** ** The context extractor *)

(** C9. [get_surrounding_text] returns the text unchanged when the target
    has whitespace only (or is empty) and when the first word of the target
    is not among the words of the text. Otherwise, with [i] the first
    position of that word, it returns the words from [max 0 (i - window)] up
    to [min (number of words) (i + window + number of target words)], the
    bounds staying inside the word list, joined without a separator. The
    model is a total function: no input makes it raise. On "The quick brown
    fox jumps" with target "brown" and window 1 the window is "quick",
    "brown", "fox", returned as "quickbrownfox": of the words of the text
    these three occur in the result and the other two do not. *)
Theorem get_surrounding_text_window (text target : string) (window : Z) :
  let words := PyStr.split text in
  let target_words := PyStr.split target in
  (all_space target = true -> get_surrounding_text text target window = text)
  /\ (all_space target = false -> target_words <> [])
  /\ (forall first, head target_words = Some first -> ~ List.In first words ->
        get_surrounding_text text target window = text)
  /\ (forall first i, head target_words = Some first ->
        words !! i = Some first ->
        (forall j, j < i -> words !! j <> Some first) ->
        let start := Z.max 0 (Z.of_nat i - window) in
        let end_ := Z.min (Z.of_nat (length words))
                      (Z.of_nat i + window + Z.of_nat (length target_words)) in
        get_surrounding_text text target window
          = PyStr.join EmptyString (PyStr.slice words start end_)
        /\ (0 <= start)%Z
        /\ (end_ <= Z.of_nat (length words))%Z
        /\ ((0 <= window)%Z ->
            (start <= Z.of_nat i < end_)%Z
            /\ PyStr.slice words start end_
               = take (Z.to_nat end_ - Z.to_nat start)
                   (List.skipn (Z.to_nat start) words)))
  /\ (PyStr.slice (PyStr.split "The quick brown fox jumps") 1 4
        = ["quick"; "brown"; "fox"]
      /\ get_surrounding_text "The quick brown fox jumps" "brown" 1 = "quickbrownfox"
      /\ forall w, List.In w (PyStr.split "The quick brown fox jumps") ->
           (occurs w (get_surrounding_text "The quick brown fox jumps" "brown" 1) = true
            <-> List.In w ["quick"; "brown"; "fox"])).
Proof.
  intros words target_words.
  assert (Hstrip : all_space target = false -> PyStr.truthy (PyStr.strip target) = true).
  { intros H. destruct (PyStr.truthy (PyStr.strip target)) eqn:E; [reflexivity|].
    apply strip_empty in E. congruence. }
  assert (Hhead : forall first, head target_words = Some first ->
                    exists rest, PyStr.split target = first :: rest
                                 /\ PyStr.truthy (PyStr.strip target) = true).
  { intros first H. subst target_words.
    destruct (PyStr.split target) as [|x rest] eqn:E; [discriminate|].
    injection H as ->. exists rest. split; [reflexivity|].
    apply Hstrip. destruct (all_space target) eqn:Hs; [|reflexivity].
    apply split_nil in Hs. congruence. }
  split; [|split; [|split; [|split; [|split; [|split]]]]].
  - intros H. apply strip_empty in H. unfold get_surrounding_text.
    rewrite H. reflexivity.
  - intros H E. apply split_nil in E. congruence.
  - intros first Hf Hnot. destruct (Hhead first Hf) as (rest & E & Ht).
    unfold get_surrounding_text. rewrite Ht, E. simpl.
    apply index_None in Hnot. fold words. rewrite Hnot. reflexivity.
  - intros first i Hf Hi Hfirst start end_.
    destruct (Hhead first Hf) as (rest & E & Ht).
    assert (PyStr.index words first = Some i) as Hidx
      by (apply index_Some; split; assumption).
    apply lookup_lt_Some in Hi.
    assert (length target_words = S (length rest)) as Hlen
      by (subst target_words; rewrite E; reflexivity).
    split; [|split; [|split]].
    + unfold get_surrounding_text. rewrite Ht, E. simpl negb. cbv iota.
      fold words. rewrite Hidx. subst start end_ target_words. rewrite E.
      reflexivity.
    + subst start. lia.
    + subst end_. lia.
    + intros Hw. split; [subst start end_; lia|].
      apply slice_inside; subst start end_; lia.
  - reflexivity.
  - reflexivity.
  - intros w Hw. simpl in Hw.
    repeat (destruct Hw as [<-|Hw]; [vm_compute; intuition congruence|]).
    destruct Hw.
Qed.

Lemma get_surrounding_text_window_witness :
  get_surrounding_text "The quick brown fox jumps" "brown" 1
  = PyStr.join EmptyString
      (PyStr.slice (PyStr.split "The quick brown fox jumps") 1 4).
Proof.
  destruct (get_surrounding_text_window "The quick brown fox jumps" "brown" 1)
    as (_ & _ & _ & H & _).
  destruct (H "brown" 2) as (Heq & _).
  - reflexivity.
  - reflexivity.
  - intros [|[|j]] Hj; [vm_compute; congruence|vm_compute; congruence|lia].
  - exact Heq.
Defined.

(** ** The deletion merger *)

Section MergeFacts.

Import PyStr.

Lemma merge_loop_from merged current rest :
  merge_loop merged current rest = merged ++ merge_from current rest.
Proof.
  revert merged current. induction rest as [|next rest IH]; intros merged current.
  - reflexivity.
  - simpl. destruct (decide (current.1 = next.1)).
    + apply IH.
    + rewrite IH, <- app_assoc. reflexivity.
Qed.

Lemma merge_from_cons current rest :
  exists x l, merge_from current rest = x :: l.
Proof.
  revert current. induction rest as [|next rest IH]; intros current; simpl.
  - eauto.
  - destruct (decide (current.1 = next.1)); eauto.
Qed.

Lemma merge_from_ids current rest :
  (merge_from current rest).*1 = collapse_runs (current.1 :: rest.*1).
Proof.
  revert current. induction rest as [|next rest IH]; intros current.
  - reflexivity.
  - cbn [merge_from fmap list_fmap collapse_runs].
    destruct (decide (current.1 = next.1)) as [E|E].
    + rewrite IH. cbn [fst]. rewrite <- E. reflexivity.
    + cbn [fmap list_fmap]. rewrite IH. reflexivity.
Qed.

Lemma join_cons sep x y l : join sep (x :: y :: l) = x +:+ sep +:+ join sep (y :: l).
Proof. reflexivity. Qed.

Lemma join_merge_head sep a b l :
  join sep ((a +:+ sep +:+ b) :: l) = a +:+ sep +:+ join sep (b :: l).
Proof.
  destruct l as [|y l]; [reflexivity|].
  rewrite !join_cons, !app_assoc_str. reflexivity.
Qed.

Lemma merge_from_texts current rest :
  join " " (merge_from current rest).*2 = join " " (current.2 :: rest.*2).
Proof.
  revert current. induction rest as [|next rest IH]; intros current.
  - reflexivity.
  - cbn [merge_from]. destruct (decide (current.1 = next.1)) as [E|E].
    + rewrite IH. cbn [snd fmap list_fmap]. apply join_merge_head.
    + destruct (merge_from_cons next rest) as (x & l & Hx).
      specialize (IH next). rewrite Hx in IH |- *.
      cbn [fmap list_fmap] in IH |- *. rewrite !join_cons. rewrite <- IH.
      reflexivity.
Qed.

(** The merger keeps texts non-empty. *)
Lemma merge_from_truthy current rest :
  truthy current.2 = true ->
  Forall (fun d => truthy d.2 = true) rest ->
  Forall (fun d => truthy d.2 = true) (merge_from current rest).
Proof.
  revert current. induction rest as [|next rest IH]; intros current Hc Hrest.
  - constructor; [exact Hc|constructor].
  - apply Forall_cons in Hrest as [Hn Hrest]. simpl.
    destruct (decide (current.1 = next.1)).
    + apply IH; [|exact Hrest]. simpl. apply truthy_app_l, Hc.
    + constructor; [exact Hc|]. apply IH; assumption.
Qed.

Lemma merge_deletions_truthy deletions :
  Forall (fun d => truthy d.2 = true) deletions ->
  Forall (fun d => truthy d.2 = true) (merge_deletions deletions).
Proof.
  destruct deletions as [|first rest]; [constructor|].
  intros H. apply Forall_cons in H as [Hf Hrest]. unfold merge_deletions.
  rewrite merge_loop_from. apply merge_from_truthy; assumption.
Qed.

End MergeFacts.

(** C2. [merge_deletions] of the empty list is empty; on a non-empty list
    the accumulator starts as the first mark, takes the text of the next
    mark behind a single space when the identifiers are equal, and is
    otherwise flushed before the scan restarts from that mark, the last
    accumulator being flushed at the end. The output keeps the order of the
    document: its identifiers are those of the input with each run of equal
    neighbours reduced to one, and its texts joined by a space are the
    texts of the input joined by a space. The three marks of the
    specification's example merge into two. *)
Theorem merge_deletions_scan :
  merge_deletions [] = []
  /\ (forall first rest, merge_deletions (first :: rest) = merge_from first rest)
  /\ (forall deletions,
        (merge_deletions deletions).*1 = collapse_runs deletions.*1)
  /\ (forall deletions,
        PyStr.join " " (merge_deletions deletions).*2 = PyStr.join " " deletions.*2)
  /\ merge_deletions [("1", "A"); ("1", "B"); ("2", "C")]
     = [("1", "A B"); ("2", "C")].
Proof.
  split; [reflexivity|]. split; [|split; [|split]].
  - intros first rest. unfold merge_deletions. apply merge_loop_from.
  - intros [|first rest]; [reflexivity|].
    unfold merge_deletions. rewrite merge_loop_from. apply merge_from_ids.
  - intros [|first rest]; [reflexivity|].
    unfold merge_deletions. rewrite merge_loop_from. apply merge_from_texts.
  - reflexivity.
Qed.

(** ** The loops of the extraction *)

Section EngineFacts.

Lemma for_each_cons {A} (x : A) (l : list A) (body : A -> M unit) (st : locals) :
  for_each (x :: l) body st
  = match body x st with
    | inl e => inl e
    | inr (_, st') => for_each l body st'
    end.
Proof. reflexivity. Qed.

(** An invariant of the locals that every iteration keeps is kept by the
    loop. *)
Lemma for_each_invariant {A} (I : locals -> Prop) (l : list A) (body : A -> M unit) :
  (forall x st st', List.In x l -> I st -> body x st = inr (tt, st') -> I st') ->
  forall st st', I st -> for_each l body st = inr (tt, st') -> I st'.
Proof.
  induction l as [|x l IH]; intros Hbody st st' HI Hrun.
  - injection Hrun as <-. exact HI.
  - rewrite for_each_cons in Hrun.
    destruct (body x st) as [e|[[] st1]] eqn:Hx; [discriminate|].
    apply (IH (fun y s s' Hy => Hbody y s s' (or_intror Hy)) st1 st');
      [|exact Hrun].
    apply (Hbody x st st1); [left; reflexivity|exact HI|exact Hx].
Qed.

Lemma process_deletion_inr full_text insertions d st st' :
  process_deletion full_text insertions d st = inr (tt, st') ->
  exists r,
    var_data st' = var_data st ++ [r]
    /\ ID r = var_unique_id st
    /\ deletion_row full_text insertions d r
    /\ var_unique_id st' = S (var_unique_id st).
Proof.
  unfold process_deletion, bind, get_unique_id, read_original_partial,
    read_corrected_sentence, assign_original_partial, assign_corrected_sentence,
    data_append, incr_unique_id, ret.
  destruct (PyStr.truthy (PyStr.strip d.2)) eqn:Hstrip; cbn.
  - intros [= <-]. eexists. cbn. split; [reflexivity|]. split; [reflexivity|].
    split; [|reflexivity]. unfold deletion_row. cbn. auto 10.
  - destruct (var_original_partial st) as [op|]; [|discriminate].
    destruct (var_corrected_sentence st) as [cs|]; [|discriminate].
    intros [= <-]. eexists. cbn. split; [reflexivity|]. split; [reflexivity|].
    split; [|reflexivity]. unfold deletion_row. cbn.
    repeat (split; [reflexivity|]). intros Ht. congruence.
Qed.

(** The only way the body of the deletion loop raises. *)
Lemma process_deletion_inl full_text insertions d st e :
  process_deletion full_text insertions d st = inl e ->
  PyStr.truthy (PyStr.strip d.2) = false
  /\ (var_original_partial st = None \/ var_corrected_sentence st = None).
Proof.
  unfold process_deletion, bind, get_unique_id, read_original_partial,
    read_corrected_sentence, assign_original_partial, assign_corrected_sentence,
    data_append, incr_unique_id, ret.
  destruct (PyStr.truthy (PyStr.strip d.2)) eqn:Hstrip; cbn; [discriminate|].
  destruct (var_original_partial st) as [op|]; [|auto].
  destruct (var_corrected_sentence st) as [cs|]; [discriminate|auto].
Qed.

Lemma process_insertion_inr full_text deletions i st :
  exists st',
    process_insertion full_text deletions i st = inr (tt, st')
    /\ if any_deletion deletions i.1
       then st' = st
       else exists r,
           var_data st' = var_data st ++ [r]
           /\ ID r = var_unique_id st
           /\ insertion_row full_text i r
           /\ var_unique_id st' = S (var_unique_id st).
Proof.
  unfold process_insertion, bind, get_unique_id, read_original_partial,
    read_corrected_sentence, assign_original_partial, assign_corrected_sentence,
    data_append, incr_unique_id, ret.
  destruct (any_deletion deletions i.1) eqn:Hany; cbn.
  - eexists. split; reflexivity.
  - eexists. split; [reflexivity|]. eexists. cbn.
    split; [reflexivity|]. split; [reflexivity|]. split; [|reflexivity].
    unfold insertion_row. cbn. auto 10.
Qed.

Lemma deletions_loop full_text insertions deletions :
  forall st st',
    for_each deletions (process_deletion full_text insertions) st = inr (tt, st') ->
    exists rows,
      var_data st' = var_data st ++ rows
      /\ Forall2 (deletion_row full_text insertions) deletions rows
      /\ ID <$> rows = seq (var_unique_id st) (length rows)
      /\ var_unique_id st' = var_unique_id st + length rows.
Proof.
  induction deletions as [|d deletions IH]; intros st st' Hrun.
  - injection Hrun as <-. exists []. rewrite app_nil_r. cbn.
    split; [reflexivity|]. split; [constructor|]. split; [reflexivity|lia].
  - rewrite for_each_cons in Hrun.
    destruct (process_deletion full_text insertions d st) as [e|[[] st1]] eqn:Hd;
      [discriminate|].
    destruct (process_deletion_inr _ _ _ _ _ Hd) as (r & Hdata & Hid & Hrow & Hu).
    destruct (IH st1 st' Hrun) as (rows & Hdata' & Hrows & Hids & Hu').
    exists (r :: rows). rewrite Hdata', Hdata, <- app_assoc. cbn.
    split; [reflexivity|]. split; [constructor; assumption|].
    split; [|lia]. rewrite Hid, Hids, Hu. reflexivity.
Qed.

Lemma insertions_loop full_text deletions insertions :
  forall st,
    exists st' rows,
      for_each insertions (process_insertion full_text deletions) st = inr (tt, st')
      /\ var_data st' = var_data st ++ rows
      /\ Forall2 (insertion_row full_text) (standalone deletions insertions) rows
      /\ ID <$> rows = seq (var_unique_id st) (length rows)
      /\ var_unique_id st' = var_unique_id st + length rows.
Proof.
  induction insertions as [|i insertions IH]; intros st.
  - exists st, []. rewrite app_nil_r. cbn.
    split; [reflexivity|]. split; [reflexivity|]. split; [constructor|].
    split; [reflexivity|lia].
  - destruct (process_insertion_inr full_text deletions i st) as (st1 & Hi & Hst1).
    destruct (IH st1) as (st' & rows & Hrun & Hdata' & Hrows & Hids & Hu').
    rewrite for_each_cons, Hi. unfold standalone in *. cbn [List.filter].
    destruct (any_deletion deletions i.1) eqn:Hany; cbn [negb].
    + subst st1. exists st', rows. auto.
    + destruct Hst1 as (r & Hdata & Hid & Hrow & Hu).
      exists st', (r :: rows). rewrite Hdata', Hdata, <- app_assoc. cbn.
      split; [exact Hrun|]. split; [reflexivity|].
      split; [constructor; assumption|].
      split; [|lia]. rewrite Hid, Hids, Hu. reflexivity.
Qed.

(** What one paragraph adds to the table. *)
Lemma process_paragraph_rows paragraph st st' :
  process_paragraph paragraph st = inr (tt, st') ->
  let full_text := paragraph_text paragraph in
  let deletions := paragraph_deletions paragraph (var_unique_id st) in
  let insertions := paragraph_insertions paragraph (var_unique_id st) in
  exists del_rows ins_rows,
    var_data st' = var_data st ++ del_rows ++ ins_rows
    /\ Forall2 (deletion_row full_text insertions) deletions del_rows
    /\ Forall2 (insertion_row full_text) (standalone deletions insertions) ins_rows
    /\ ID <$> (del_rows ++ ins_rows)
       = seq (var_unique_id st) (length (del_rows ++ ins_rows))
    /\ var_unique_id st' = var_unique_id st + length (del_rows ++ ins_rows).
Proof.
  intros Hrun full_text deletions insertions.
  unfold process_paragraph, bind, get_unique_id in Hrun.
  fold (paragraph_text paragraph) in Hrun.
  fold (paragraph_deletions paragraph (var_unique_id st)) in Hrun.
  fold (paragraph_insertions paragraph (var_unique_id st)) in Hrun.
  fold full_text deletions insertions in Hrun.
  destruct (for_each deletions (process_deletion full_text insertions) st)
    as [e|[[] st1]] eqn:Hdel; [discriminate|].
  destruct (deletions_loop _ _ _ _ _ Hdel) as (del_rows & Hd1 & Hd2 & Hd3 & Hd4).
  destruct (insertions_loop full_text deletions insertions st1)
    as (st2 & ins_rows & Hi0 & Hi1 & Hi2 & Hi3 & Hi4).
  rewrite Hi0 in Hrun. injection Hrun as <-.
  exists del_rows, ins_rows. rewrite Hi1, Hd1, <- app_assoc.
  split; [reflexivity|]. split; [exact Hd2|]. split; [exact Hi2|].
  rewrite fmap_app, length_app, seq_app, Hd3, Hi3, Hd4.
  split; [reflexivity|lia].
Qed.

End EngineFacts.

(** ** The scanner and the correlator *)

Section CorrelatorFacts.

Import PyStr.

(** The scanner keeps no mark with empty text. *)
Lemma scan_marks_truthy paragraph mark text_tag fallback :
  Forall (fun x => truthy x.2 = true) (scan_marks paragraph mark text_tag fallback).
Proof.
  apply Forall_forall. intros x Hx. unfold scan_marks in Hx.
  apply list_elem_of_omap in Hx as (el & _ & Hel). cbn zeta in Hel.
  destruct (truthy (extract_text_from_runs (text <$> findall el text_tag))) eqn:Ht;
    [|discriminate].
  injection Hel as <-. exact Ht.
Qed.

Lemma paragraph_deletions_truthy paragraph uid :
  Forall (fun x => truthy x.2 = true) (paragraph_deletions paragraph uid).
Proof. apply merge_deletions_truthy, scan_marks_truthy. Qed.

Lemma paragraph_insertions_truthy paragraph uid :
  Forall (fun x => truthy x.2 = true) (paragraph_insertions paragraph uid).
Proof. apply scan_marks_truthy. Qed.

(** The scanner as a map over the marks that have text. *)
Lemma scan_marks_eq paragraph mark text_tag fallback :
  scan_marks paragraph mark text_tag fallback
  = (fun el => (default fallback (attrib el !! "w:id"),
                extract_text_from_runs (text <$> findall el text_tag)))
    <$> List.filter
          (fun el => truthy (extract_text_from_runs (text <$> findall el text_tag)))
          (findall paragraph mark).
Proof.
  unfold scan_marks. induction (findall paragraph mark) as [|el l IH]; [reflexivity|].
  cbn [omap list_omap List.filter]. cbv zeta.
  destruct (truthy (extract_text_from_runs (text <$> findall el text_tag)));
    cbn [fmap list_fmap]; [f_equal|]; exact IH.
Qed.

Lemma matching_insert_Some insertions del_id t :
  matching_insert insertions del_id = Some t <->
  exists k, insertions !! k = Some (del_id, t)
            /\ forall j x, j < k -> insertions !! j = Some x -> x.1 <> del_id.
Proof.
  unfold matching_insert. induction insertions as [|[i s] l IH]; cbn.
  - split; [discriminate|]. intros (k & Hk & _). destruct k; discriminate.
  - destruct (bool_decide_reflect (i = del_id)) as [->|Hne]; cbn.
    + split.
      * intros [= ->]. exists 0. split; [reflexivity|]. intros j x Hj. lia.
      * intros ([|k] & Hk & Hfirst).
        -- injection Hk as ->. reflexivity.
        -- exfalso. apply (Hfirst 0 (del_id, s)); [lia|reflexivity|reflexivity].
    + rewrite IH. split.
      * intros (k & Hk & Hfirst). exists (S k). split; [exact Hk|].
        intros [|j] x Hj Hx.
        -- injection Hx as <-. exact Hne.
        -- apply (Hfirst j); [lia|exact Hx].
      * intros ([|k] & Hk & Hfirst).
        -- injection Hk as -> _. congruence.
        -- exists k. split; [exact Hk|]. intros j x Hj Hx.
           apply (Hfirst (S j)); [lia|exact Hx].
Qed.

Lemma matching_insert_None insertions del_id :
  matching_insert insertions del_id = None <->
  forall x, List.In x insertions -> x.1 <> del_id.
Proof.
  unfold matching_insert. induction insertions as [|[i s] l IH]; cbn.
  - tauto.
  - destruct (bool_decide_reflect (i = del_id)) as [->|Hne]; cbn.
    + split; [discriminate|]. intros H. exfalso.
      apply (H (del_id, s)); [left|]; reflexivity.
    + rewrite IH. split.
      * intros H x [<-|Hx]; [exact Hne|apply H, Hx].
      * intros H x Hx. apply H. right. exact Hx.
Qed.

Lemma matching_insert_truthy insertions del_id t :
  Forall (fun x => truthy x.2 = true) insertions ->
  matching_insert insertions del_id = Some t -> truthy t = true.
Proof.
  intros Hall H. apply matching_insert_Some in H as (k & Hk & _).
  rewrite Forall_lookup in Hall. apply (Hall k (del_id, t) Hk).
Qed.

(** With insertion texts non-empty, the correlator's answer depends on
    whether an insertion with the identifier exists. *)
Lemma correlate_eq insertions del_id :
  Forall (fun x => truthy x.2 = true) insertions ->
  correlate insertions del_id
  = match matching_insert insertions del_id with
    | Some t => (both, Some t)
    | None => (deletion, None)
    end.
Proof.
  intros Hall. unfold correlate.
  destruct (matching_insert insertions del_id) as [t|] eqn:Hm; [|reflexivity].
  cbn. rewrite (matching_insert_truthy _ _ _ Hall Hm). reflexivity.
Qed.

Lemma any_deletion_false deletions ins_id :
  any_deletion deletions ins_id = false <->
  forall d, List.In d deletions -> d.1 <> ins_id.
Proof.
  unfold any_deletion. induction deletions as [|d l IH]; cbn.
  - split; [intros _ d []|reflexivity].
  - rewrite orb_false_iff, IH. split.
    + intros [Hd Hl] x [<-|Hx]; [|apply Hl, Hx].
      apply bool_decide_eq_false in Hd. exact Hd.
    + intros H. split.
      * apply bool_decide_eq_false. apply H. left. reflexivity.
      * intros x Hx. apply H. right. exact Hx.
Qed.

Lemma standalone_In deletions insertions i :
  List.In i (standalone deletions insertions) <->
  List.In i insertions /\ forall d, List.In d deletions -> d.1 <> i.1.
Proof.
  unfold standalone. rewrite List.filter_In, negb_true_iff, any_deletion_false.
  tauto.
Qed.

Lemma is_partial_word_modification_true original corrected :
  is_partial_word_modification original corrected = true <->
  String.length original <> String.length corrected
  /\ startswith (lower original) (lower corrected) = true.
Proof.
  unfold is_partial_word_modification.
  destruct (Nat.eqb_spec (String.length original) (String.length corrected)) as [E|E];
    cbn.
  - split; [discriminate|]. intros [H _]. contradiction.
  - destruct (startswith (lower original) (lower corrected)); split;
      try discriminate; try tauto.
Qed.

Lemma Forall2_Forall_r {A B} (R : A -> B -> Prop) (l : list A) (k : list B) :
  Forall2 R l k -> Forall (fun y => exists x, List.In x l /\ R x y) k.
Proof.
  induction 1 as [|x y l k HR _ IH]; constructor.
  - exists x. split; [left; reflexivity|exact HR].
  - eapply Forall_impl; [exact IH|]. intros b (a & Ha & Hab).
    exists a. split; [right; exact Ha|exact Hab].
Qed.

(** Every row of the table is a row of some paragraph, and the sequence
    ids count up from 1. *)
Lemma extract_rows root data :
  extract_tracked_changes root = inr data ->
  Forall emitted data /\ ID <$> data = seq 1 (length data).
Proof.
  unfold extract_tracked_changes.
  destruct (for_each (findall root "p") process_paragraph initial_locals)
    as [e|[[] st']] eqn:Hrun; [discriminate|].
  intros [= <-].
  pose (I := fun st => Forall emitted (var_data st)
                       /\ ID <$> var_data st = seq 1 (length (var_data st))
                       /\ var_unique_id st = S (length (var_data st))).
  enough (I st') as (H1 & H2 & _) by (split; assumption).
  apply (for_each_invariant I (findall root "p") process_paragraph) with initial_locals;
    [|repeat split; constructor|exact Hrun].
  intros paragraph st st1 _ (Hem & Hids & Huid) Hp.
  destruct (process_paragraph_rows _ _ _ Hp)
    as (del_rows & ins_rows & Hdata & Hdel & Hins & Hseq & Hu).
  unfold I. rewrite Hdata. repeat split.
  - apply Forall_app. split; [exact Hem|]. apply Forall_app. split.
    + eapply Forall_impl; [exact (Forall2_Forall_r _ _ _ Hdel)|].
      intros r (d & Hd & Hrow). exists paragraph, (var_unique_id st). left. eauto.
    + eapply Forall_impl; [exact (Forall2_Forall_r _ _ _ Hins)|].
      intros r (i & Hi & Hrow). exists paragraph, (var_unique_id st). right. eauto.
  - rewrite fmap_app, Hids, Hseq, Huid.
    rewrite (length_app (var_data st)), seq_app. reflexivity.
  - rewrite Hu, Huid, (length_app (var_data st)). lia.
Qed.

End CorrelatorFacts.

(** ** The correlator and the classifier *)

(** C1. In the rows that a paragraph adds to the table, the rows of the
    merged deletions come first, one per merged deletion and in their
    order, followed by one row per insertion whose identifier is the
    identifier of no merged deletion. The row of a deletion holds the text
    of the first insertion with the deletion's identifier as its correction
    and is a replacement ([both], or [partial_word_modification] after the
    override); every deletion is looked up in the same, whole insertion
    list, so one insertion can serve several deletions. Without such an
    insertion the row is a [deletion] with no correction. The row of a
    standalone insertion has no original snippet, the insertion's text as
    correction and the type [insertion]. *)
Theorem correlation_by_identifier (paragraph : Element) (st st' : locals) :
  process_paragraph paragraph st = inr (tt, st') ->
  let deletions := paragraph_deletions paragraph (var_unique_id st) in
  let insertions := paragraph_insertions paragraph (var_unique_id st) in
  exists del_rows ins_rows,
    var_data st' = var_data st ++ del_rows ++ ins_rows
    /\ Forall2
         (fun d r =>
            original_single r = Some d.2
            /\ (forall k t,
                  insertions !! k = Some (d.1, t) ->
                  (forall j x, j < k -> insertions !! j = Some x -> x.1 <> d.1) ->
                  correction_single r = Some t
                  /\ (change_type r = both
                      \/ change_type r = partial_word_modification))
            /\ ((forall x, List.In x insertions -> x.1 <> d.1) ->
                correction_single r = None /\ change_type r = deletion))
         deletions del_rows
    /\ Forall2
         (fun i r =>
            original_single r = None
            /\ correction_single r = Some i.2
            /\ change_type r = insertion)
         (standalone deletions insertions) ins_rows
    /\ (forall i, List.In i (standalone deletions insertions) <->
                  List.In i insertions
                  /\ forall d, List.In d deletions -> d.1 <> i.1).
Proof.
  intros Hrun deletions insertions.
  destruct (process_paragraph_rows _ _ _ Hrun)
    as (del_rows & ins_rows & Hdata & Hdel & Hins & _ & _).
  fold deletions insertions in Hdel, Hins.
  pose proof (paragraph_insertions_truthy paragraph (var_unique_id st)) as Htruthy.
  fold insertions in Htruthy.
  exists del_rows, ins_rows. split; [exact Hdata|]. split; [|split].
  - eapply Forall2_impl; [exact Hdel|].
    intros d r (Ho & _ & Hc & Ht & _). rewrite correlate_eq in Hc, Ht by exact Htruthy.
    split; [exact Ho|]. split.
    + intros k t Hk Hfirst.
      assert (matching_insert insertions d.1 = Some t) as Hm
        by (apply matching_insert_Some; eauto).
      rewrite Hm in Hc, Ht. cbn in Hc, Ht. split; [exact Hc|].
      rewrite Ht.
      destruct (PyStr.truthy t && is_partial_word_modification d.2 t); auto.
    + intros Hnone. apply matching_insert_None in Hnone.
      rewrite Hnone in Hc, Ht. split; [exact Hc|exact Ht].
  - eapply Forall2_impl; [exact Hins|].
    intros i r (Ho & _ & Hc & Ht & _). auto.
  - intros i. apply standalone_In.
Qed.

Lemma correlation_by_identifier_witness :
  exists st',
    process_paragraph sample_paragraph initial_locals = inr (tt, st')
    /\ exists del_rows ins_rows,
        var_data st' = del_rows ++ ins_rows
        /\ length del_rows = 3 /\ length ins_rows = 1
        /\ correction_single <$> del_rows = [Some "a"; None; Some "a"].
Proof.
  eexists. split; [vm_compute; reflexivity|].
  edestruct (correlation_by_identifier sample_paragraph initial_locals)
    as (del_rows & ins_rows & Hdata & Hdel & Hins & _);
    [vm_compute; reflexivity|].
  exists del_rows, ins_rows. split; [exact Hdata|].
  apply Forall2_length in Hdel as Hl1. apply Forall2_length in Hins as Hl2.
  split; [rewrite <- Hl1; vm_compute; reflexivity|].
  split; [rewrite <- Hl2; vm_compute; reflexivity|].
  vm_compute in Hdata.
  destruct del_rows as [|r1 [|r2 [|r3 [|]]]]; try discriminate Hl1.
  injection Hdata as <- <- <- _. reflexivity.
Defined.

(** The type and the correction of a row, according to the kind of row. *)
Lemma emitted_shape (r : ChangeRecord) :
  emitted r ->
  (exists o, original_single r = Some o /\ PyStr.truthy o = true
             /\ correction_single r = None /\ change_type r = deletion)
  \/ (exists o c, original_single r = Some o /\ PyStr.truthy o = true
                  /\ correction_single r = Some c /\ PyStr.truthy c = true
                  /\ change_type r
                     = if is_partial_word_modification o c
                       then partial_word_modification else both)
  \/ (exists c, original_single r = None
                /\ correction_single r = Some c /\ PyStr.truthy c = true
                /\ change_type r = insertion).
Proof.
  intros (paragraph & uid & [(d & Hd & Hrow)|(i & Hi & Hrow)]).
  - pose proof (paragraph_insertions_truthy paragraph uid) as Hins.
    pose proof (paragraph_deletions_truthy paragraph uid) as Hdel.
    rewrite Forall_forall in Hdel. apply list_elem_of_In, Hdel in Hd.
    destruct Hrow as (Ho & _ & Hc & Ht & _).
    rewrite correlate_eq in Hc, Ht by exact Hins.
    destruct (matching_insert (paragraph_insertions paragraph uid) d.1) as [t|] eqn:Hm;
      cbn in Hc, Ht.
    + right. left. exists d.2, t.
      pose proof (matching_insert_truthy _ _ _ Hins Hm) as Htt.
      rewrite Htt in Ht. cbn in Ht. auto 10.
    + left. exists d.2. auto.
  - right. right. apply standalone_In in Hi as [Hi _].
    pose proof (paragraph_insertions_truthy paragraph uid) as Hins.
    rewrite Forall_forall in Hins. apply list_elem_of_In, Hins in Hi.
    destruct Hrow as (Ho & _ & Hc & Ht & _). exists i.2. auto.
Qed.

(** C3. In every row of the table the type is
    [partial_word_modification] exactly when the row has an original and a
    correction, the two differ in length, and the lowercased original
    starts with the lowercased correction; it is [both] exactly when the
    row has an original and a correction for which that test fails; rows
    without a correction are exactly the rows of type [deletion] and rows
    without an original exactly those of type [insertion], so these two
    types are never overridden. "testing" against "test" passes the test,
    "color" against "colour" does not. *)
Theorem partial_word_reclassification (root : Element) (data : list ChangeRecord)
    (r : ChangeRecord) :
  extract_tracked_changes root = inr data ->
  List.In r data ->
  (change_type r = partial_word_modification <->
   exists o c, original_single r = Some o /\ correction_single r = Some c
               /\ String.length o <> String.length c
               /\ PyStr.startswith (PyStr.lower o) (PyStr.lower c) = true)
  /\ (change_type r = both <->
      exists o c, original_single r = Some o /\ correction_single r = Some c
                  /\ ~ (String.length o <> String.length c
                        /\ PyStr.startswith (PyStr.lower o) (PyStr.lower c) = true))
  /\ (change_type r = deletion <-> correction_single r = None)
  /\ (change_type r = insertion <-> original_single r = None)
  /\ is_partial_word_modification "testing" "test" = true
  /\ is_partial_word_modification "color" "colour" = false.
Proof.
  intros Hrun Hr. apply extract_rows in Hrun as [Hem _].
  rewrite Forall_forall in Hem. apply list_elem_of_In, Hem, emitted_shape in Hr.
  destruct Hr as [(o & Ho & _ & Hc & Ht)|[(o & c & Ho & _ & Hc & _ & Ht)|(c & Ho & Hc & _ & Ht)]].
  - rewrite Ho, Hc, Ht. repeat split; try discriminate; try reflexivity;
      intros (o' & c' & _ & ? & _); discriminate.
  - rewrite Ho, Hc, Ht.
    pose proof (is_partial_word_modification_true o c) as Hp.
    destruct (is_partial_word_modification o c);
      repeat split; try discriminate; try reflexivity.
    + intros _. exists o, c. repeat split; apply Hp; reflexivity.
    + intros (o' & c' & [= <-] & [= <-] & Hnot). exfalso. apply Hnot, Hp. reflexivity.
    + intros (o' & c' & [= <-] & [= <-] & H). apply Hp in H. discriminate.
    + intros _. exists o, c. repeat split. intros H. apply Hp in H. discriminate.
  - rewrite Ho, Hc, Ht. repeat split; try discriminate; try reflexivity;
      intros (o' & c' & ? & _); discriminate.
Qed.

Lemma partial_word_reclassification_witness :
  exists data r,
    extract_tracked_changes sample_document = inr data
    /\ data !! 4 = Some r
    /\ original_single r = Some "testing"
    /\ correction_single r = Some "test"
    /\ (change_type r = partial_word_modification <->
        exists o c, original_single r = Some o /\ correction_single r = Some c
                    /\ String.length o <> String.length c
                    /\ PyStr.startswith (PyStr.lower o) (PyStr.lower c) = true).
Proof.
  eexists. eexists. split; [vm_compute; reflexivity|].
  split; [reflexivity|]. split; [reflexivity|]. split; [reflexivity|].
  refine (proj1 (partial_word_reclassification sample_document _ _ _ _)).
  - vm_compute. reflexivity.
  - do 4 right. left. reflexivity.
Defined.

(** ** The corrected sentence *)

Lemma replacement_text_default (c : option string) :
  replacement_text c = default EmptyString c.
Proof. destruct c as [[|a s]|]; reflexivity. Qed.

(** C4, as the code has it. For every row with an original snippet that is
    not made of whitespace only, the corrected sentence is the full text in
    which every occurrence of the snippet, read from the left and without
    overlap, is replaced by the correction, or removed when the row has no
    correction. *)
Theorem corrected_sentence_all_occurrences (root : Element)
    (data : list ChangeRecord) (r : ChangeRecord) (o : string) :
  extract_tracked_changes root = inr data ->
  List.In r data ->
  original_single r = Some o ->
  all_space o = false ->
  corrected_sentence r
    = PyStr.replace (original_sentence r) o (default EmptyString (correction_single r))
  /\ ReplacedAll o (default EmptyString (correction_single r))
       (original_sentence r) (corrected_sentence r).
Proof.
  intros Hrun Hr Ho Hblank. apply extract_rows in Hrun as [Hem _].
  rewrite Forall_forall in Hem. apply list_elem_of_In, Hem in Hr.
  assert (PyStr.truthy o = true) as Htruthy by (destruct o; [discriminate|reflexivity]).
  assert (corrected_sentence r
          = PyStr.replace (original_sentence r) o
              (default EmptyString (correction_single r))) as Heq.
  { destruct Hr as (paragraph & uid & [(d & _ & Hrow)|(i & _ & Hrow)]).
    - destruct Hrow as (Ho' & Hs & Hc & _ & _ & Hstrip).
      rewrite Ho in Ho'. injection Ho' as ->.
      destruct Hstrip as [_ Hcs].
      + destruct (PyStr.truthy (PyStr.strip d.2)) eqn:E; [reflexivity|].
        apply strip_empty in E. congruence.
      + rewrite Hcs, Hs, Hc. f_equal. apply replacement_text_default.
    - destruct Hrow as (Ho' & _). congruence. }
  split; [exact Heq|]. rewrite Heq. apply replace_spec, Htruthy.
Qed.

Lemma corrected_sentence_all_occurrences_witness :
  exists data r,
    extract_tracked_changes repeated_snippet_document = inr data
    /\ data !! 0 = Some r
    /\ corrected_sentence r = PyStr.replace "the cat the dog" "the" EmptyString.
Proof.
  eexists. eexists. split; [vm_compute; reflexivity|]. split; [reflexivity|].
  refine (proj1 (corrected_sentence_all_occurrences
                   repeated_snippet_document _ _ "the" _ _ _ _)).
  - vm_compute. reflexivity.
  - left. reflexivity.
  - reflexivity.
  - reflexivity.
Defined.

(** C4 as the specification words it fails: with the deleted snippet "the"
    twice in the text "the cat the dog", the row's corrected sentence has
    lost both, while replacing the first occurrence only keeps the
    second. *)
Lemma corrected_sentence_first_occurrence_counterexample :
  exists r,
    extract_tracked_changes repeated_snippet_document = inr [r]
    /\ original_single r = Some "the"
    /\ correction_single r = None
    /\ original_sentence r = "the cat the dog"
    /\ replace_first_occurrence (original_sentence r) "the" EmptyString = " cat the dog"
    /\ corrected_sentence r = " cat  dog"
    /\ corrected_sentence r
       <> replace_first_occurrence (original_sentence r) "the" EmptyString.
Proof.
  eexists. split; [vm_compute; reflexivity|].
  repeat (split; [reflexivity|]). vm_compute. discriminate.
Qed.

(** ** The scanner *)

(** C5, as the code has it. The scanner drops the marks whose text is empty
    and keeps every other mark, whitespace-only text included: its output
    is the list of identifier and text of the marks with non-empty text, in
    order. No mark in a paragraph's deletion or insertion list has empty
    text, and no row of the table has an empty original or an empty
    correction. *)
Theorem empty_marks_discarded :
  (forall paragraph mark text_tag fallback,
      scan_marks paragraph mark text_tag fallback
      = (fun el => (default fallback (attrib el !! "w:id"),
                    extract_text_from_runs (text <$> findall el text_tag)))
        <$> List.filter
              (fun el => PyStr.truthy
                           (extract_text_from_runs (text <$> findall el text_tag)))
              (findall paragraph mark))
  /\ (forall paragraph uid x,
        List.In x (paragraph_deletions paragraph uid)
        \/ List.In x (paragraph_insertions paragraph uid) ->
        x.2 <> EmptyString)
  /\ (forall root data r,
        extract_tracked_changes root = inr data ->
        List.In r data ->
        original_single r <> Some EmptyString
        /\ correction_single r <> Some EmptyString).
Proof.
  split; [exact scan_marks_eq|]. split.
  - intros paragraph uid x [Hx|Hx]; apply truthy_true.
    + pose proof (paragraph_deletions_truthy paragraph uid) as H.
      rewrite Forall_forall in H. apply H, list_elem_of_In, Hx.
    + pose proof (paragraph_insertions_truthy paragraph uid) as H.
      rewrite Forall_forall in H. apply H, list_elem_of_In, Hx.
  - intros root data r Hrun Hr. apply extract_rows in Hrun as [Hem _].
    rewrite Forall_forall in Hem. apply list_elem_of_In, Hem, emitted_shape in Hr.
    destruct Hr as [(o & Ho & Hto & Hc & _)
                   |[(o & c & Ho & Hto & Hc & Htc & _)|(c & Ho & Hc & Htc & _)]];
      rewrite Ho, Hc; split; try discriminate;
        intros [= ->]; discriminate.
Qed.

Lemma empty_marks_discarded_witness :
  exists data r,
    extract_tracked_changes sample_document = inr data
    /\ data !! 1 = Some r
    /\ original_single r <> Some EmptyString
    /\ correction_single r <> Some EmptyString.
Proof.
  eexists. eexists. split; [vm_compute; reflexivity|]. split; [reflexivity|].
  destruct empty_marks_discarded as (_ & _ & H).
  eapply (H sample_document); [vm_compute; reflexivity|].
  right. left. reflexivity.
Defined.

(** C5 as the specification words it fails: an insertion and a deletion
    whose text is a single space stay in the scanner's lists, and the
    insertion gets a row. *)
Lemma blank_marks_discarded_counterexample :
  all_space " " = true
  /\ paragraph_insertions blank_insertion_paragraph 1 = [("7", " ")]
  /\ scan_marks (para [del_mark (Some "3") " "]) "del" "delText" (PyStr.str 1)
     = [("3", " ")]
  /\ exists r,
      extract_tracked_changes (document [blank_insertion_paragraph]) = inr [r]
      /\ original_single r = None
      /\ correction_single r = Some " "
      /\ change_type r = insertion.
Proof.
  split; [reflexivity|]. split; [vm_compute; reflexivity|].
  split; [vm_compute; reflexivity|].
  eexists. split; [vm_compute; reflexivity|]. repeat split.
Qed.

(** Marks without an id attribute: two such deletions get the same
    fallback identifier and are merged into one, and such a deletion and
    such an insertion are matched as a replacement. *)
Lemma marks_without_id_share_fallback :
  scan_marks no_id_deletions_paragraph "del" "delText" (PyStr.str 1)
  = [("1", "a"); ("1", "b")]
  /\ paragraph_deletions no_id_deletions_paragraph 1 = [("1", "a b")]
  /\ paragraph_deletions no_id_pair_paragraph 1 = [("1", "old")]
  /\ paragraph_insertions no_id_pair_paragraph 1 = [("1", "new")]
  /\ exists r,
      extract_tracked_changes (document [no_id_pair_paragraph]) = inr [r]
      /\ original_single r = Some "old"
      /\ correction_single r = Some "new"
      /\ change_type r = both.
Proof.
  repeat (split; [vm_compute; reflexivity|]).
  eexists. split; [vm_compute; reflexivity|]. repeat split.
Qed.

Section FallbackFacts.

(** A mark whose dictionary lacks the key [w:id] is listed under the
    fallback. *)
Lemma scan_marks_fallback paragraph mark text_tag fallback :
  (forall el, List.In el (findall paragraph mark) -> attrib el !! "w:id" = None) ->
  Forall (fun x => x.1 = fallback) (scan_marks paragraph mark text_tag fallback).
Proof.
  intros Hkey. rewrite scan_marks_eq. apply Forall_forall. intros x Hx.
  apply list_elem_of_fmap in Hx as (el & -> & Hel).
  apply list_elem_of_In, List.filter_In in Hel as [Hel _].
  cbn. rewrite (Hkey el Hel). reflexivity.
Qed.

(** Deletions that all carry one identifier are merged into one. *)
Lemma merge_from_one_id i current rest :
  current.1 = i ->
  Forall (fun d => d.1 = i) rest ->
  exists t, merge_from current rest = [(i, t)].
Proof.
  revert current. induction rest as [|next rest IH]; intros [j t] Hc Hrest;
    cbn in Hc; subst j.
  - exists t. reflexivity.
  - apply Forall_cons in Hrest as [Hn Hrest]. cbn [merge_from fst snd].
    destruct (decide (i = next.1)) as [_|Hne]; [|congruence].
    apply IH; [reflexivity|exact Hrest].
Qed.

Lemma merge_deletions_one_id i deletions :
  Forall (fun d => d.1 = i) deletions ->
  deletions = [] /\ merge_deletions deletions = []
  \/ exists t, merge_deletions deletions = [(i, t)].
Proof.
  destruct deletions as [|first rest]; [left; split; reflexivity|].
  intros H. apply Forall_cons in H as [Hf Hrest]. right.
  unfold merge_deletions. rewrite merge_loop_from. cbn.
  apply merge_from_one_id; assumption.
Qed.

End FallbackFacts.

(** C6, where the code departs from it. The scanner looks for the key
    [w:id] in the attribute dictionary. In a paragraph none of whose marks
    has that key, every deletion and every insertion is listed under the
    one fallback, the decimal text of the record counter at the start of
    the scan: all deletions are merged into a single one, and once there is
    a deletion no insertion gets a row of its own. A parsed element that
    declares [w:id] has the key [{uri}id] and not the key [w:id]: in the
    parsed paragraph whose deletion declares the id 5 and whose insertion
    declares the id 6 both marks are listed under "1" and come out as one
    replacement. *)
Theorem declared_identifier_not_read :
  (forall paragraph uid,
      (forall el, List.In el (findall paragraph "del")
                  \/ List.In el (findall paragraph "ins") ->
                  attrib el !! "w:id" = None) ->
      (forall x, List.In x (paragraph_deletions paragraph uid)
                 \/ List.In x (paragraph_insertions paragraph uid) ->
                 x.1 = PyStr.str uid)
      /\ length (paragraph_deletions paragraph uid) <= 1
      /\ (paragraph_deletions paragraph uid <> [] ->
          standalone (paragraph_deletions paragraph uid)
            (paragraph_insertions paragraph uid) = []))
  /\ (forall v s, attrib (parsed_del_mark v s) !! "w:id" = None
                  /\ attrib (parsed_ins_mark v s) !! "w:id" = None)
  /\ paragraph_deletions declared_ids_paragraph 1 = [("1", "old")]
  /\ paragraph_insertions declared_ids_paragraph 1 = [("1", "new")]
  /\ exists r,
      extract_tracked_changes (document [declared_ids_paragraph]) = inr [r]
      /\ original_single r = Some "old"
      /\ correction_single r = Some "new"
      /\ change_type r = both.
Proof.
  split; [|split; [|split; [|split]]].
  - intros paragraph uid Hkey.
    pose proof (scan_marks_fallback paragraph "del" "delText" (PyStr.str uid)
                  (fun el H => Hkey el (or_introl H))) as Hdel.
    pose proof (scan_marks_fallback paragraph "ins" "t" (PyStr.str uid)
                  (fun el H => Hkey el (or_intror H))) as Hins.
    fold (paragraph_insertions paragraph uid) in Hins.
    apply merge_deletions_one_id in Hdel.
    fold (paragraph_deletions paragraph uid) in Hdel.
    rewrite Forall_forall in Hins.
    split; [|split].
    + intros x [Hx|Hx].
      * destruct Hdel as [[_ Hnil]|[t Ht]]; rewrite ?Hnil, ?Ht in Hx.
        -- destruct Hx.
        -- destruct Hx as [<-|[]]. reflexivity.
      * apply Hins, list_elem_of_In, Hx.
    + destruct Hdel as [[_ ->]|[t ->]]; cbn; lia.
    + intros Hne. destruct Hdel as [[_ Hnil]|[t Ht]]; [contradiction|].
      rewrite Ht. unfold standalone.
      induction (paragraph_insertions paragraph uid) as [|i l IH]; [reflexivity|].
      cbn [List.filter any_deletion existsb fst].
      rewrite (Hins i) by (left).
      rewrite bool_decide_eq_true_2 by reflexivity. cbn.
      apply IH. intros x Hx. apply Hins. right. exact Hx.
  - intros v s. split; vm_compute; reflexivity.
  - vm_compute. reflexivity.
  - vm_compute. reflexivity.
  - eexists. split; [vm_compute; reflexivity|]. repeat split.
Qed.

Lemma declared_identifier_not_read_witness :
  length (paragraph_deletions declared_ids_paragraph 1) <= 1
  /\ standalone (paragraph_deletions declared_ids_paragraph 1)
       (paragraph_insertions declared_ids_paragraph 1) = [].
Proof.
  destruct declared_identifier_not_read as (H & _).
  destruct (H declared_ids_paragraph 1) as (_ & Hlen & Hst).
  - intros el [Hel|Hel]; vm_compute in Hel; destruct Hel as [<-|[]];
      vm_compute; reflexivity.
  - split; [exact Hlen|]. apply Hst. vm_compute. discriminate.
Defined.

(** ** Exceptions *)

Section TotalityFacts.

Lemma for_each_total {A} (l : list A) (body : A -> M unit) :
  (forall x st, List.In x l -> exists st', body x st = inr (tt, st')) ->
  forall st, exists st', for_each l body st = inr (tt, st').
Proof.
  induction l as [|x l IH]; intros Hbody st.
  - exists st. reflexivity.
  - destruct (Hbody x st) as (st1 & Hx); [left; reflexivity|].
    destruct (IH (fun y s Hy => Hbody y s (or_intror Hy)) st1) as (st' & Hl).
    exists st'. rewrite for_each_cons, Hx. exact Hl.
Qed.

Lemma process_deletion_total full_text insertions d st :
  all_space d.2 = false ->
  exists st', process_deletion full_text insertions d st = inr (tt, st').
Proof.
  intros Hblank.
  destruct (process_deletion full_text insertions d st) as [e|[[] st']] eqn:Hd.
  - apply process_deletion_inl in Hd as [Hstrip _].
    apply strip_empty in Hstrip. congruence.
  - exists st'. reflexivity.
Qed.

(** A paragraph none of whose merged deletions is made of whitespace only
    is processed without an exception. *)
Lemma process_paragraph_total paragraph st :
  (forall d, List.In d (paragraph_deletions paragraph (var_unique_id st)) ->
             all_space d.2 = false) ->
  exists st', process_paragraph paragraph st = inr (tt, st').
Proof.
  intros Hblank.
  destruct (for_each_total
              (paragraph_deletions paragraph (var_unique_id st))
              (process_deletion (paragraph_text paragraph)
                 (paragraph_insertions paragraph (var_unique_id st)))
              (fun d s Hd => process_deletion_total _ _ d s (Hblank d Hd)) st)
    as (st1 & Hdel).
  destruct (insertions_loop (paragraph_text paragraph)
              (paragraph_deletions paragraph (var_unique_id st))
              (paragraph_insertions paragraph (var_unique_id st)) st1)
    as (st' & rows & Hins & _).
  exists st'. unfold process_paragraph, bind, get_unique_id.
  fold (paragraph_text paragraph).
  fold (paragraph_deletions paragraph (var_unique_id st)).
  fold (paragraph_insertions paragraph (var_unique_id st)).
  rewrite Hdel. exact Hins.
Qed.

(** The extraction returns a table whenever no paragraph has a merged
    deletion made of whitespace only. *)
Lemma extract_total root :
  (forall paragraph uid d,
      List.In paragraph (findall root "p") ->
      List.In d (paragraph_deletions paragraph uid) -> all_space d.2 = false) ->
  exists data, extract_tracked_changes root = inr data.
Proof.
  intros Hblank. unfold extract_tracked_changes.
  destruct (for_each_total (findall root "p") process_paragraph
              (fun p s Hp => process_paragraph_total p s
                               (fun d Hd => Hblank p _ d Hp Hd)) initial_locals)
    as (st' & Hrun).
  rewrite Hrun. eauto.
Qed.

End TotalityFacts.

(** A document without paragraphs gives the empty table. *)
Lemma extract_no_paragraphs root :
  findall root "p" = [] -> extract_tracked_changes root = inr [].
Proof. intros H. unfold extract_tracked_changes. rewrite H. reflexivity. Qed.

(** C7, where the code departs from it. A document whose first edit is the
    deletion of a single space makes the extraction raise
    [UnboundLocalError]: the row is built from [original_partial], which no
    statement has assigned yet. The extraction of a document without
    paragraphs returns the empty table. *)
Theorem blank_deletion_raises :
  extract_tracked_changes blank_deletion_document
  = inl (UnboundLocalError "original_partial")
  /\ extract_tracked_changes (document []) = inr [].
Proof. split; vm_compute; reflexivity. Qed.

(** When an earlier row exists, the row of a whitespace-only deletion is
    built from the context and the corrected sentence that the earlier row
    left in the locals. *)
Example blank_deletion_reuses_context :
  exists r1 r2,
    extract_tracked_changes late_blank_deletion_document = inr [r1; r2]
    /\ original_single r2 = Some " "
    /\ original_sentence r2 = "ab"
    /\ original_partial r2 = original_partial r1
    /\ corrected_sentence r2 = corrected_sentence r1
    /\ corrected_sentence r2 = "one ".
Proof. eexists. eexists. split; [vm_compute; reflexivity|]. repeat split. Qed.

(** ** Sequence ids *)

(** C8. The sequence ids of the rows of the table are 1, 2, ..., n in the
    order of the rows: the row at position [k] (from 0) has the id [k + 1],
    whatever the number of paragraphs that added no row. *)
Theorem sequence_ids_contiguous (root : Element) (data : list ChangeRecord) :
  extract_tracked_changes root = inr data ->
  ID <$> data = seq 1 (length data)
  /\ forall k r, data !! k = Some r -> ID r = S k.
Proof.
  intros Hrun. apply extract_rows in Hrun as [_ Hids]. split; [exact Hids|].
  intros k r Hk.
  assert ((ID <$> data) !! k = Some (ID r)) as H
    by (rewrite list_lookup_fmap, Hk; reflexivity).
  rewrite Hids in H. apply lookup_seq in H as [H _]. lia.
Qed.

Lemma sequence_ids_contiguous_witness :
  exists data,
    extract_tracked_changes sample_document = inr data
    /\ ID <$> data = [1; 2; 3; 4; 5].
Proof.
  eexists. split; [vm_compute; reflexivity|].
  refine (proj1 (sequence_ids_contiguous sample_document _ _)).
  vm_compute. reflexivity.
Defined.

(** ** The correction context *)

(** C10. No row has a correction context computed as a window around the
    correction: in a row of type [deletion], [both] or
    [partial_word_modification] the correction context is the row's
    corrected sentence, and in a row of type [insertion] it is the row's
    original context. *)
Theorem correction_context_copied (root : Element) (data : list ChangeRecord)
    (r : ChangeRecord) :
  extract_tracked_changes root = inr data ->
  List.In r data ->
  (change_type r <> insertion -> correction_partial r = corrected_sentence r)
  /\ (change_type r = insertion -> correction_partial r = original_partial r).
Proof.
  intros Hrun Hr. apply extract_rows in Hrun as [Hem _].
  rewrite Forall_forall in Hem. apply list_elem_of_In, Hem in Hr.
  pose proof (emitted_shape r Hr) as Hshape.
  destruct Hr as (paragraph & uid & [(d & _ & Hrow)|(i & _ & Hrow)]).
  - destruct Hrow as (Ho & _ & _ & _ & Hcp & _). split; [intros _; exact Hcp|].
    intros Ht. exfalso.
    destruct Hshape as [(o & _ & _ & _ & Ht')|[(o & c & _ & _ & _ & _ & Ht')|(c & Ho' & _)]].
    + congruence.
    + rewrite Ht in Ht'. destruct (is_partial_word_modification o c); discriminate.
    + congruence.
  - destruct Hrow as (_ & _ & _ & Ht & _ & Hcp & _).
    split; [intros H; contradiction|]. intros _. rewrite Hcp. apply replace_same.
Qed.

Lemma correction_context_copied_witness :
  exists data r,
    extract_tracked_changes sample_document = inr data
    /\ data !! 3 = Some r
    /\ change_type r = insertion
    /\ correction_partial r = original_partial r.
Proof.
  eexists. eexists. split; [vm_compute; reflexivity|]. split; [reflexivity|].
  split; [reflexivity|].
  refine (proj2 (correction_context_copied sample_document _ _ _ _) _).
  - vm_compute. reflexivity.
  - do 3 right. left. reflexivity.
  - reflexivity.
Defined.

(** * Further properties of the code *)

(** ** extract_text_from_runs *)

Section RunTextFacts.

Import PyStr.

Lemma join_empty_cons (x : string) (l : list string) :
  join EmptyString (x :: l) = x +:+ join EmptyString l.
Proof.
  destruct l as [|y l]; [cbn; rewrite app_empty_r; reflexivity|reflexivity].
Qed.

Lemma join_empty_app (l1 l2 : list string) :
  join EmptyString (l1 ++ l2) = join EmptyString l1 +:+ join EmptyString l2.
Proof.
  induction l1 as [|x l1 IH]; [reflexivity|].
  rewrite <- app_comm_cons, !join_empty_cons, IH, app_assoc_str. reflexivity.
Qed.

Lemma join_empty_length (l : list string) :
  String.length (join EmptyString l) = total_length l.
Proof.
  induction l as [|x l IH]; [reflexivity|].
  rewrite join_empty_cons, length_app_str, IH. reflexivity.
Qed.

Lemma extract_text_from_runs_cons (r : option string) (runs : list (option string)) :
  extract_text_from_runs (r :: runs)
  = default EmptyString r +:+ extract_text_from_runs runs.
Proof.
  unfold extract_text_from_runs. destruct r as [[|c s]|]; cbn [omap list_omap truthy_opt truthy default].
  - reflexivity.
  - fold (@omap list _). rewrite join_empty_cons. reflexivity.
  - reflexivity.
Qed.

End RunTextFacts.

(** X1. The text of a sequence of runs is the concatenation of the texts of
    its runs, a run without text counting as empty: the text of two
    sequences put one behind the other is the concatenation of their texts,
    its length is the sum of the lengths of the run texts, and it is empty
    exactly when every run has no text or the empty text. *)
Theorem extract_text_from_runs_concat (runs1 runs2 : list (option string)) :
  extract_text_from_runs (runs1 ++ runs2)
  = extract_text_from_runs runs1 +:+ extract_text_from_runs runs2
  /\ String.length (extract_text_from_runs runs1)
     = total_length (default EmptyString <$> runs1)
  /\ (extract_text_from_runs runs1 = EmptyString <->
      forall r, List.In r runs1 -> r = None \/ r = Some EmptyString).
Proof.
  split; [|split].
  - induction runs1 as [|r runs1 IH]; [reflexivity|].
    rewrite <- app_comm_cons, !extract_text_from_runs_cons, IH, app_assoc_str.
    reflexivity.
  - induction runs1 as [|r runs1 IH]; [reflexivity|].
    rewrite extract_text_from_runs_cons, length_app_str, IH. reflexivity.
  - induction runs1 as [|r runs1 IH].
    + split; [intros _ r []|reflexivity].
    + rewrite extract_text_from_runs_cons. split.
      * intros H r' [<-|Hr'].
        -- destruct r as [[|c s]|]; auto. discriminate.
        -- apply IH; [|exact Hr'].
           destruct r as [[|c s]|]; cbn in H; try exact H. discriminate.
      * intros H. destruct (H r (or_introl eq_refl)) as [->| ->]; cbn;
          apply IH; intros r' Hr'; apply H; right; exact Hr'.
Qed.

(** ** is_partial_word_modification *)

(** X2. On texts whose lowercase forms are as long as the texts themselves,
    [is_partial_word_modification] accepts shortenings only: when it
    answers true the correction is strictly shorter than the original and
    the lowercased original is the lowercased correction followed by a
    non-empty rest. So on such texts it is never true in both directions,
    and it is false on texts that are equal up to case. *)
Theorem partial_word_is_shortening (original corrected : string) :
  String.length (PyStr.lower original) = String.length original ->
  String.length (PyStr.lower corrected) = String.length corrected ->
  (is_partial_word_modification original corrected = true ->
   String.length corrected < String.length original
   /\ (exists rest, rest <> EmptyString
                    /\ PyStr.lower original = PyStr.lower corrected +:+ rest)
   /\ is_partial_word_modification corrected original = false)
  /\ (PyStr.lower original = PyStr.lower corrected ->
      is_partial_word_modification original corrected = false).
Proof.
  intros Hlo Hlc. split.
  - intros H. apply is_partial_word_modification_true in H as [Hlen Hpre].
    apply prefix_split in Hpre as [rest Hrest].
    assert (String.length original
            = String.length corrected + String.length rest) as Hsum.
    { rewrite <- Hlo, Hrest, length_app_str, Hlc. reflexivity. }
    assert (rest <> EmptyString) as Hne.
    { intros ->. cbn in Hsum. lia. }
    assert (String.length corrected < String.length original) as Hlt.
    { destruct rest; [congruence|]. cbn in Hsum. lia. }
    split; [exact Hlt|]. split; [exists rest; split; assumption|].
    destruct (is_partial_word_modification corrected original) eqn:E; [|reflexivity].
    apply is_partial_word_modification_true in E as [_ Hpre'].
    apply prefix_split in Hpre' as [rest' Hrest'].
    assert (String.length (PyStr.lower corrected)
            = String.length (PyStr.lower original +:+ rest')) as Hl
      by (rewrite <- Hrest'; reflexivity).
    rewrite length_app_str, Hlo, Hlc in Hl. lia.
  - intros Heq.
    destruct (is_partial_word_modification original corrected) eqn:E; [|reflexivity].
    apply is_partial_word_modification_true in E as [Hlen _].
    exfalso. apply Hlen. rewrite <- Hlo, Heq. exact Hlc.
Qed.

Lemma partial_word_is_shortening_witness :
  String.length "information" < String.length "informations".
Proof.
  refine (proj1 (proj1 (partial_word_is_shortening "informations" "information" _ _)
                   _)).
  - reflexivity.
  - reflexivity.
  - reflexivity.
Defined.

(** ** merge_deletions, continued *)

Section MergeOutputFacts.

Lemma merge_from_head current rest :
  exists l, merge_from current rest = (current.1, (hd current (merge_from current rest)).2) :: l.
Proof.
  revert current. induction rest as [|next rest IH]; intros [i t]; cbn.
  - eauto.
  - destruct (decide (i = next.1)) as [E|E]; cbn; [|eauto].
    destruct (IH (i, t +:+ " " +:+ next.2)) as [l Hl]. cbn in Hl.
    rewrite Hl. cbn. eauto.
Qed.

Lemma merge_from_head_id current rest :
  (hd current (merge_from current rest)).1 = current.1.
Proof. destruct (merge_from_head current rest) as [l ->]. reflexivity. Qed.

Lemma merge_from_adjacent_distinct current rest :
  adjacent_distinct (merge_from current rest).
Proof.
  revert current. induction rest as [|next rest IH]; intros current; cbn.
  - exact I.
  - destruct (decide (current.1 = next.1)) as [E|E]; [apply IH|].
    specialize (IH next). pose proof (merge_from_head_id next rest) as Hh.
    destruct (merge_from next rest) as [|y l] eqn:Hm; [exact I|].
    cbn in Hh. cbn. split; [congruence|exact IH].
Qed.

Lemma merge_from_fixed current rest :
  adjacent_distinct (current :: rest) -> merge_from current rest = current :: rest.
Proof.
  revert current. induction rest as [|next rest IH]; intros current H.
  - reflexivity.
  - destruct H as [Hne H]. cbn [merge_from].
    destruct (decide (current.1 = next.1)) as [E|E]; [contradiction|].
    rewrite IH by exact H. reflexivity.
Qed.

Lemma merge_from_length current rest :
  length (merge_from current rest) <= S (length rest).
Proof.
  revert current. induction rest as [|next rest IH]; intros current; cbn.
  - lia.
  - destruct (decide (current.1 = next.1)).
    + specialize (IH (current.1, current.2 +:+ " " +:+ next.2)). lia.
    + cbn. specialize (IH next). lia.
Qed.

End MergeOutputFacts.

(** X4. In the output of [merge_deletions] no two neighbours carry the same
    identifier, and the output is never longer than the input. A list that
    already has no two neighbours with the same identifier is returned
    unchanged, equal identifiers that are not neighbours included; so
    merging a second time changes nothing. *)
Theorem merge_deletions_output (deletions : list (string * string)) :
  adjacent_distinct (merge_deletions deletions)
  /\ length (merge_deletions deletions) <= length deletions
  /\ (adjacent_distinct deletions -> merge_deletions deletions = deletions)
  /\ merge_deletions (merge_deletions deletions) = merge_deletions deletions.
Proof.
  assert (Hfix : forall l, adjacent_distinct l -> merge_deletions l = l).
  { intros [|first rest] H; [reflexivity|].
    unfold merge_deletions. rewrite merge_loop_from. apply merge_from_fixed, H. }
  assert (Hadj : adjacent_distinct (merge_deletions deletions)).
  { destruct deletions as [|first rest]; [exact I|].
    unfold merge_deletions. rewrite merge_loop_from.
    apply merge_from_adjacent_distinct. }
  split; [exact Hadj|]. split; [|split; [apply Hfix|apply Hfix, Hadj]].
  destruct deletions as [|first rest]; [reflexivity|].
  unfold merge_deletions. rewrite merge_loop_from. apply merge_from_length.
Qed.

Lemma merge_deletions_output_witness :
  merge_deletions [("1", "a"); ("2", "b"); ("1", "c")]
  = [("1", "a"); ("2", "b"); ("1", "c")].
Proof.
  refine (proj1 (proj2 (proj2 (merge_deletions_output
                                 [("1", "a"); ("2", "b"); ("1", "c")]))) _).
  cbn. split; [discriminate|]. split; [discriminate|exact I].
Defined.

(** ** get_surrounding_text, continued *)

Section ContextFacts.

Import PyStr.

Lemma has_space_app (s t : string) : has_space (s +:+ t) = has_space s || has_space t.
Proof.
  induction s as [|c s IH]; [reflexivity|].
  rewrite app_cons. cbn. rewrite IH, orb_assoc. reflexivity.
Qed.

(** The words of [split] are non-empty and free of whitespace. *)
Lemma split_go_words (cur s : string) :
  has_space cur = false ->
  Forall (fun w => has_space w = false /\ truthy w = true) (split_go cur s).
Proof.
  revert cur. induction s as [|c s IH]; intros cur Hcur; cbn.
  - destruct (truthy cur) eqn:Ht; repeat constructor; assumption.
  - destruct (isspace c) eqn:Hc.
    + destruct (truthy cur) eqn:Ht; [constructor; [split; assumption|]|];
        apply IH; reflexivity.
    + apply IH. rewrite has_space_app, Hcur. cbn. rewrite Hc. reflexivity.
Qed.

Lemma split_go_total_length (cur s : string) :
  total_length (split_go cur s) <= String.length cur + String.length s.
Proof.
  revert cur. induction s as [|c s IH]; intros cur; cbn.
  - destruct (truthy cur); cbn; lia.
  - destruct (isspace c).
    + destruct (truthy cur); cbn; specialize (IH EmptyString); cbn in IH; lia.
    + specialize (IH (cur +:+ String c EmptyString)).
      rewrite length_app_str in IH. cbn in IH. lia.
Qed.

Lemma total_length_app (l1 l2 : list string) :
  total_length (l1 ++ l2) = total_length l1 + total_length l2.
Proof. induction l1 as [|x l1 IH]; [reflexivity|]. cbn. rewrite IH. lia. Qed.

Lemma total_length_take (n : nat) (l : list string) :
  total_length (take n l) <= total_length l.
Proof.
  rewrite <- (take_drop n l) at 2. rewrite total_length_app. lia.
Qed.

Lemma total_length_drop (n : nat) (l : list string) :
  total_length (List.skipn n l) <= total_length l.
Proof.
  rewrite <- (take_drop n l) at 2. rewrite total_length_app. lia.
Qed.

Lemma slice_total_length (l : list string) (a b : Z) :
  total_length (slice l a b) <= total_length l.
Proof.
  unfold slice. etransitivity; [apply total_length_take|apply total_length_drop].
Qed.

Lemma slice_Forall {A} (P : A -> Prop) (l : list A) (a b : Z) :
  Forall P l -> Forall P (slice l a b).
Proof. intros H. unfold slice. apply Forall_take, Forall_drop, H. Qed.

Lemma join_empty_no_space (l : list string) :
  Forall (fun w => has_space w = false /\ truthy w = true) l ->
  has_space (join EmptyString l) = false.
Proof.
  induction 1 as [|x l [Hx _] _ IH]; [reflexivity|].
  rewrite join_empty_cons, has_space_app, Hx, IH. reflexivity.
Qed.

Lemma occurs_prefix (sub s : string) :
  String.prefix sub s = true -> occurs sub s = true.
Proof. intros H. destruct s; cbn [occurs]; rewrite H; reflexivity. Qed.

Lemma occurs_middle (a w b : string) : occurs w (a +:+ w +:+ b) = true.
Proof.
  induction a as [|c a IH].
  - change (EmptyString +:+ w +:+ b) with (w +:+ b).
    apply occurs_prefix, prefix_app.
  - rewrite app_cons. cbn [occurs]. rewrite IH. apply orb_true_r.
Qed.

(** The branch of [get_surrounding_text] that returns a window. *)
Lemma get_surrounding_text_found text target window first i :
  head (split target) = Some first ->
  index (split text) first = Some i ->
  get_surrounding_text text target window
  = join EmptyString
      (slice (split text)
         (Z.max 0 (Z.of_nat i - window))
         (Z.min (Z.of_nat (length (split text)))
            (Z.of_nat i + window + Z.of_nat (length (split target))))).
Proof.
  intros Hhead Hidx. unfold get_surrounding_text.
  destruct (split target) as [|x rest] eqn:E; [discriminate|].
  injection Hhead as ->.
  destruct (truthy (strip target)) eqn:Ht.
  - cbn. rewrite Hidx. reflexivity.
  - apply strip_empty, split_nil in Ht. congruence.
Qed.

Lemma index_found (l : list string) (x : string) :
  List.In x l -> exists i, index l x = Some i.
Proof.
  intros H. destruct (index l x) as [i|] eqn:E; [eauto|].
  apply index_None in E. contradiction.
Qed.

End ContextFacts.

(** X5. When the first word of the target is among the words of the text,
    [get_surrounding_text] returns the words of the window run together:
    the result has no whitespace character, whatever the window, and it is
    never longer than the text. So on a text with whitespace the result is
    not the text and not a piece of it with its spacing. *)
Theorem get_surrounding_text_runs_words_together
    (text target : string) (window : Z) (first : string) :
  head (PyStr.split target) = Some first ->
  List.In first (PyStr.split text) ->
  has_space (get_surrounding_text text target window) = false
  /\ String.length (get_surrounding_text text target window) <= String.length text
  /\ (has_space text = true -> get_surrounding_text text target window <> text).
Proof.
  intros Hhead Hin. destruct (index_found _ _ Hin) as [i Hi].
  rewrite (get_surrounding_text_found _ _ _ _ _ Hhead Hi).
  assert (Hns : has_space
                  (PyStr.join EmptyString
                     (PyStr.slice (PyStr.split text)
                        (Z.max 0 (Z.of_nat i - window))
                        (Z.min (Z.of_nat (length (PyStr.split text)))
                           (Z.of_nat i + window
                            + Z.of_nat (length (PyStr.split target)))))) = false).
  { apply join_empty_no_space, slice_Forall, split_go_words. reflexivity. }
  split; [exact Hns|]. split.
  - rewrite join_empty_length. etransitivity; [apply slice_total_length|].
    apply (split_go_total_length EmptyString text).
  - intros Hsp Heq. rewrite Heq in Hns. congruence.
Qed.

Lemma get_surrounding_text_runs_words_together_witness :
  has_space (get_surrounding_text "The quick brown fox jumps" "brown fox" 5) = false.
Proof.
  apply (get_surrounding_text_runs_words_together
           "The quick brown fox jumps" "brown fox" 5 "brown").
  - reflexivity.
  - vm_compute. do 2 right. left. reflexivity.
Defined.

(** X6. When the first word of the target is among the words of the text
    and the window is not negative, that word occurs in the result of
    [get_surrounding_text]. *)
Theorem get_surrounding_text_contains_first_word
    (text target : string) (window : Z) (first : string) :
  head (PyStr.split target) = Some first ->
  List.In first (PyStr.split text) ->
  (0 <= window)%Z ->
  occurs first (get_surrounding_text text target window) = true.
Proof.
  intros Hhead Hin Hw. destruct (index_found _ _ Hin) as [i Hi].
  rewrite (get_surrounding_text_found _ _ _ _ _ Hhead Hi).
  apply index_Some in Hi as [Hi _].
  pose proof (lookup_lt_Some _ _ _ Hi) as Hlt.
  assert (length (PyStr.split target) >= 1) as Htw
    by (destruct (PyStr.split target); [discriminate|cbn; lia]).
  rewrite slice_inside by lia.
  set (a := Z.to_nat (Z.max 0 (Z.of_nat i - window))).
  set (b := Z.to_nat (Z.min (Z.of_nat (length (PyStr.split text)))
                        (Z.of_nat i + window
                         + Z.of_nat (length (PyStr.split target))))).
  assert (take (b - a) (List.skipn a (PyStr.split text)) !! (i - a) = Some first) as Hl.
  { rewrite lookup_take_lt by (subst a b; lia).
    rewrite lookup_drop.
    replace (a + (i - a)) with i by (subst a; lia). exact Hi. }
  apply list_elem_of_lookup_2, list_elem_of_split in Hl as (l1 & l2 & ->).
  rewrite join_empty_app, join_empty_cons. apply occurs_middle.
Qed.

Lemma get_surrounding_text_contains_first_word_witness :
  occurs "brown" (get_surrounding_text "The quick brown fox jumps" "brown fox" 0) = true.
Proof.
  apply (get_surrounding_text_contains_first_word
           "The quick brown fox jumps" "brown fox" 0 "brown").
  - reflexivity.
  - vm_compute. do 2 right. left. reflexivity.
  - lia.
Defined.

(** ** The element tree, continued *)

Section TreeFacts.

(** Induction over the tree: a property that holds for an element whenever
    it holds for its children holds for every element. *)
Lemma Element_tree_ind (P : Element -> Prop) :
  (forall t a x cs, Forall P cs -> P (mkElement t a x cs)) ->
  forall e, P e.
Proof.
  intros H. fix IH 1. intros [t a x cs]. apply H.
  induction cs as [|c cs IHcs]; constructor; [apply IH|exact IHcs].
Qed.

Lemma iter_unfold (e : Element) : iter e = e :: descendants e.
Proof. destruct e; reflexivity. Qed.

(** The descendants of a descendant form one segment of the descendants. *)
Lemma descendants_segment (e c : Element) :
  List.In c (descendants e) ->
  exists l1 l2, descendants e = l1 ++ c :: descendants c ++ l2.
Proof.
  revert c. induction e as [t a x cs IH] using Element_tree_ind. intros c.
  unfold descendants at 1 2. cbn [children].
  induction IH as [|ci cs Hci _ IHcs]; [intros []|].
  cbn [List.flat_map]. rewrite iter_unfold. intros Hin.
  apply List.in_app_or in Hin as [[<-|Hin]|Hin].
  - exists [], (List.flat_map iter cs). reflexivity.
  - destruct (Hci c Hin) as (l1 & l2 & Heq). rewrite Heq.
    exists (ci :: l1), (l2 ++ List.flat_map iter cs).
    rewrite <- !app_comm_cons. f_equal.
    rewrite <- app_assoc, <- app_comm_cons, <- app_assoc. reflexivity.
  - destruct (IHcs Hin) as (l1 & l2 & Heq). rewrite Heq.
    exists ((ci :: descendants ci) ++ l1), l2. rewrite <- app_assoc. reflexivity.
Qed.

Lemma findall_descendants (e : Element) (name : string) :
  findall e name = filter (fun x => tag x = qname name) (descendants e).
Proof. reflexivity. Qed.

Lemma findall_In (e c : Element) (name : string) :
  List.In c (findall e name) <-> List.In c (descendants e) /\ tag c = qname name.
Proof.
  rewrite findall_descendants, <- !list_elem_of_In, list_elem_of_filter. tauto.
Qed.

(** What [findall] finds below a descendant is one segment of what it
    finds below the element. *)
Lemma findall_segment (e c : Element) (name : string) :
  List.In c (descendants e) ->
  exists l1 l2, findall e name = l1 ++ findall c name ++ l2.
Proof.
  intros Hin. destruct (descendants_segment e c Hin) as (l1 & l2 & Heq).
  rewrite !findall_descendants, Heq.
  rewrite filter_app, filter_cons, filter_app.
  destruct (decide (tag c = qname name)).
  - exists (filter (fun x => tag x = qname name) l1 ++ [c]),
      (filter (fun x => tag x = qname name) l2).
    rewrite <- !app_assoc. reflexivity.
  - eauto.
Qed.

Lemma extract_text_from_runs_app (runs1 runs2 : list (option string)) :
  extract_text_from_runs (runs1 ++ runs2)
  = extract_text_from_runs runs1 +:+ extract_text_from_runs runs2.
Proof.
  induction runs1 as [|r runs1 IH]; [reflexivity|].
  rewrite <- app_comm_cons, !extract_text_from_runs_cons, IH, app_assoc_str.
  reflexivity.
Qed.

(** The text below a descendant is a piece of the text below the
    element. *)
Lemma text_of_descendant_occurs (e c : Element) :
  List.In c (descendants e) ->
  occurs (extract_text_from_runs (text <$> findall c "t"))
    (extract_text_from_runs (text <$> findall e "t")) = true.
Proof.
  intros Hin. destruct (findall_segment e c "t" Hin) as (l1 & l2 & ->).
  rewrite !fmap_app, !extract_text_from_runs_app. apply occurs_middle.
Qed.

Lemma scan_marks_In paragraph mark text_tag fallback x :
  List.In x (scan_marks paragraph mark text_tag fallback) <->
  exists el, List.In el (findall paragraph mark)
             /\ x = (default fallback (attrib el !! "w:id"),
                     extract_text_from_runs (text <$> findall el text_tag))
             /\ PyStr.truthy x.2 = true.
Proof.
  unfold scan_marks. rewrite <- list_elem_of_In, list_elem_of_omap. split.
  - intros (el & Hel & Hx). exists el. rewrite <- list_elem_of_In.
    split; [exact Hel|]. cbv zeta in Hx.
    destruct (PyStr.truthy (extract_text_from_runs (text <$> findall el text_tag)))
      eqn:Ht; [|discriminate].
    injection Hx as <-. split; [reflexivity|exact Ht].
  - intros (el & Hel & -> & Ht). exists el. rewrite list_elem_of_In.
    split; [exact Hel|]. cbv zeta. cbn in Ht. rewrite Ht. reflexivity.
Qed.

End TreeFacts.

(** ** Sentences and corrections *)

Section SentenceFacts.

Import PyStr.

Lemma replace_scan_absent old new s :
  occurs old s = false -> replace_scan old new 0 s = s.
Proof.
  induction s as [|c s IH]; [reflexivity|].
  cbn [occurs]. intros H. apply orb_false_iff in H as [Hp Ho].
  rewrite replace_scan_copy by exact Hp. rewrite IH by exact Ho. reflexivity.
Qed.

Lemma replace_absent s old new :
  truthy old = true -> occurs old s = false -> replace s old new = s.
Proof. intros Ht Ho. unfold replace. rewrite Ht. apply replace_scan_absent, Ho. Qed.

(** The texts of a paragraph's insertions are pieces of its text. *)
Lemma paragraph_insertion_occurs paragraph uid i :
  List.In i (paragraph_insertions paragraph uid) ->
  occurs i.2 (paragraph_text paragraph) = true.
Proof.
  unfold paragraph_insertions. intros Hi.
  apply scan_marks_In in Hi as (el & Hel & -> & _).
  apply findall_In in Hel as [Hel _]. apply text_of_descendant_occurs, Hel.
Qed.

End SentenceFacts.

(** X7. The corrected sentence of a row is its original sentence whenever
    the row is an insertion, and whenever the row has an original snippet
    that is not made of whitespace only and does not occur in the
    paragraph's text: the edit then leaves no trace in the sentence. *)
Theorem corrected_sentence_unchanged (root : Element) (data : list ChangeRecord)
    (r : ChangeRecord) :
  extract_tracked_changes root = inr data ->
  List.In r data ->
  (change_type r = insertion -> corrected_sentence r = original_sentence r)
  /\ (forall o, original_single r = Some o ->
                all_space o = false ->
                occurs o (original_sentence r) = false ->
                corrected_sentence r = original_sentence r).
Proof.
  intros Hrun Hr. apply extract_rows in Hrun as [Hem _].
  rewrite Forall_forall in Hem. apply list_elem_of_In, Hem in Hr.
  pose proof (emitted_shape r Hr) as Hshape.
  destruct Hr as (paragraph & uid & [(d & _ & Hrow)|(i & _ & Hrow)]).
  - destruct Hrow as (Ho & Hs & _ & _ & _ & Hstrip). split.
    + intros Ht. exfalso.
      destruct Hshape as [(o & _ & _ & _ & Ht')
                         |[(o & c & _ & _ & _ & _ & Ht')|(c & Ho' & _)]].
      * congruence.
      * rewrite Ht in Ht'. destruct (is_partial_word_modification o c); discriminate.
      * congruence.
    + intros o Ho' Hblank Hocc. rewrite Ho in Ho'. injection Ho' as <-.
      destruct Hstrip as [_ Hcs].
      * destruct (PyStr.truthy (PyStr.strip d.2)) eqn:E; [reflexivity|].
        apply strip_empty in E. congruence.
      * rewrite Hcs, Hs. rewrite Hs in Hocc. apply replace_absent; [|exact Hocc].
        destruct d.2; [discriminate|reflexivity].
  - destruct Hrow as (Ho & Hs & _ & _ & _ & _ & Hcs). split.
    + intros _. rewrite Hcs, Hs. apply replace_same.
    + intros o Ho'. congruence.
Qed.

Lemma corrected_sentence_unchanged_witness :
  exists data r,
    extract_tracked_changes sample_document = inr data
    /\ data !! 1 = Some r
    /\ original_single r = Some "sat"
    /\ corrected_sentence r = original_sentence r.
Proof.
  eexists. eexists. split; [vm_compute; reflexivity|].
  split; [reflexivity|]. split; [reflexivity|].
  refine (proj2 (corrected_sentence_unchanged sample_document _ _ _ _) "sat" _ _ _).
  - vm_compute. reflexivity.
  - right. left. reflexivity.
  - reflexivity.
  - reflexivity.
  - vm_compute. reflexivity.
Defined.

(** X8. The original sentence of a row already holds the row's correction:
    whenever a row has a correction, its text occurs in the original
    sentence, because the paragraph's text is read from all its text runs,
    those inside insertion marks included. *)
Theorem correction_occurs_in_original_sentence (root : Element)
    (data : list ChangeRecord) (r : ChangeRecord) (c : string) :
  extract_tracked_changes root = inr data ->
  List.In r data ->
  correction_single r = Some c ->
  occurs c (original_sentence r) = true.
Proof.
  intros Hrun Hr Hc. apply extract_rows in Hrun as [Hem _].
  rewrite Forall_forall in Hem. apply list_elem_of_In, Hem in Hr.
  destruct Hr as (paragraph & uid & [(d & _ & Hrow)|(i & Hi & Hrow)]).
  - destruct Hrow as (_ & Hs & Hc' & _). rewrite Hs.
    rewrite correlate_eq in Hc' by apply paragraph_insertions_truthy.
    destruct (matching_insert (paragraph_insertions paragraph uid) d.1) as [t|] eqn:Hm;
      cbn in Hc'; [|congruence].
    assert (t = c) as -> by congruence.
    apply matching_insert_Some in Hm as (k & Hk & _).
    apply list_elem_of_lookup_2, list_elem_of_In in Hk.
    apply (paragraph_insertion_occurs paragraph uid (d.1, c)), Hk.
  - destruct Hrow as (_ & Hs & Hc' & _). rewrite Hs.
    assert (i.2 = c) as <- by congruence.
    apply standalone_In in Hi as [Hi _].
    apply (paragraph_insertion_occurs paragraph uid i), Hi.
Qed.

Lemma correction_occurs_in_original_sentence_witness :
  exists data r,
    extract_tracked_changes sample_document = inr data
    /\ data !! 0 = Some r
    /\ correction_single r = Some "a"
    /\ occurs "a" (original_sentence r) = true.
Proof.
  eexists. eexists. split; [vm_compute; reflexivity|].
  split; [reflexivity|]. split; [reflexivity|].
  refine (correction_occurs_in_original_sentence sample_document _ _ "a" _ _ _).
  - vm_compute. reflexivity.
  - left. reflexivity.
  - reflexivity.
Defined.



(** A run on the nested paragraphs: the deletion of the inner paragraph
    gives two rows, the first with the text of the outer paragraph. *)
Example nested_paragraph_two_rows :
  exists r1 r2,
    extract_tracked_changes (document [outer_paragraph]) = inr [r1; r2]
    /\ original_single r1 = Some "gone" /\ original_single r2 = Some "gone"
    /\ original_sentence r1 = "around in the box"
    /\ original_sentence r2 = "in the box".
Proof. eexists. eexists. split; [vm_compute; reflexivity|]. repeat split. Qed.

(** ** When the extraction raises *)

Section RaiseFacts.

Lemma process_paragraph_split paragraph st :
  process_paragraph paragraph st
  = match for_each (paragraph_deletions paragraph (var_unique_id st))
            (process_deletion (paragraph_text paragraph)
               (paragraph_insertions paragraph (var_unique_id st))) st with
    | inl e => inl e
    | inr (_, st1) =>
        for_each (paragraph_insertions paragraph (var_unique_id st))
          (process_insertion (paragraph_text paragraph)
             (paragraph_deletions paragraph (var_unique_id st))) st1
    end.
Proof. reflexivity. Qed.

(** The state after the body of the deletion loop. *)
Lemma process_deletion_state full_text insertions d st st' :
  process_deletion full_text insertions d st = inr (tt, st') ->
  exists r,
    st' = mkLocals (var_data st ++ [r]) (S (var_unique_id st))
            (Some (original_partial r)) (Some (corrected_sentence r))
    /\ original_single r = Some d.2
    /\ (PyStr.truthy (PyStr.strip d.2) = false ->
        var_original_partial st = Some (original_partial r)
        /\ var_corrected_sentence st = Some (corrected_sentence r)).
Proof.
  unfold process_deletion, bind, get_unique_id, read_original_partial,
    read_corrected_sentence, assign_original_partial, assign_corrected_sentence,
    data_append, incr_unique_id, ret.
  destruct (PyStr.truthy (PyStr.strip d.2)) eqn:Hstrip; cbn.
  - intros [= <-]. eexists (mkChangeRecord _ _ _ _ _ _ _ _). cbn.
    split; [reflexivity|]. split; [reflexivity|]. discriminate.
  - destruct (var_original_partial st) as [op|] eqn:Hop; [|discriminate].
    destruct (var_corrected_sentence st) as [cs|] eqn:Hcs; [|discriminate].
    cbn. intros [= <-]. rewrite ?Hop, ?Hcs.
    eexists (mkChangeRecord _ _ _ _ _ _ _ _). cbn.
    split; [reflexivity|]. split; [reflexivity|]. intros _. split; reflexivity.
Qed.

(** The state after the body of the insertion loop. *)
Lemma process_insertion_state full_text deletions i st st' :
  process_insertion full_text deletions i st = inr (tt, st') ->
  (any_deletion deletions i.1 = true /\ st' = st)
  \/ (any_deletion deletions i.1 = false
      /\ exists r,
          st' = mkLocals (var_data st ++ [r]) (S (var_unique_id st))
                  (Some (original_partial r)) (Some (corrected_sentence r))
          /\ original_single r = None).
Proof.
  unfold process_insertion, bind, get_unique_id, read_original_partial,
    read_corrected_sentence, assign_original_partial, assign_corrected_sentence,
    data_append, incr_unique_id, ret.
  destruct (any_deletion deletions i.1) eqn:Hany; cbn.
  - intros [= <-]. left. split; reflexivity.
  - intros [= <-]. right. split; [reflexivity|].
    eexists (mkChangeRecord _ _ _ _ _ _ _ _). cbn. split; reflexivity.
Qed.

Lemma process_deletion_blank_unbound full_text insertions d st :
  all_space d.2 = true ->
  var_original_partial st = None ->
  process_deletion full_text insertions d st
  = inl (UnboundLocalError "original_partial").
Proof.
  intros Hblank Hnone. apply strip_empty in Hblank.
  unfold process_deletion, bind, get_unique_id, read_original_partial, ret.
  rewrite Hblank, Hnone. reflexivity.
Qed.

Lemma process_deletion_bound full_text insertions d st :
  context_bound st \/ all_space d.2 = false ->
  exists st', process_deletion full_text insertions d st = inr (tt, st')
              /\ context_bound st'.
Proof.
  intros H.
  destruct (process_deletion full_text insertions d st) as [e|[[] st']] eqn:Hd.
  - exfalso. apply process_deletion_inl in Hd as [Hstrip Hnone].
    destruct H as [[[op Hop] [cs Hcs]]|Hblank].
    + destruct Hnone; congruence.
    + apply strip_empty in Hstrip. congruence.
  - exists st'. split; [reflexivity|].
    apply process_deletion_state in Hd as (r & -> & _). split; cbn; eauto.
Qed.

Lemma deletions_loop_bound full_text insertions deletions st :
  context_bound st ->
  exists st', for_each deletions (process_deletion full_text insertions) st
              = inr (tt, st')
              /\ context_bound st'.
Proof.
  revert st. induction deletions as [|d deletions IH]; intros st Hb.
  - exists st. split; [reflexivity|exact Hb].
  - destruct (process_deletion_bound full_text insertions d st (or_introl Hb))
      as (st1 & Hd & Hb1).
    destruct (IH st1 Hb1) as (st' & Hrun & Hb').
    exists st'. rewrite for_each_cons, Hd. split; assumption.
Qed.

Lemma insertions_loop_bound full_text deletions insertions st :
  context_bound st ->
  exists st', for_each insertions (process_insertion full_text deletions) st
              = inr (tt, st')
              /\ context_bound st'.
Proof.
  revert st. induction insertions as [|i insertions IH]; intros st Hb.
  - exists st. split; [reflexivity|exact Hb].
  - destruct (process_insertion_inr full_text deletions i st) as (st1 & Hi & _).
    assert (context_bound st1) as Hb1.
    { apply process_insertion_state in Hi as [[_ ->]|[_ (r & -> & _)]];
        [exact Hb|split; cbn; eauto]. }
    destruct (IH st1 Hb1) as (st' & Hrun & Hb').
    exists st'. rewrite for_each_cons, Hi. split; assumption.
Qed.

Lemma process_paragraph_bound paragraph st :
  context_bound st ->
  exists st', process_paragraph paragraph st = inr (tt, st') /\ context_bound st'.
Proof.
  intros Hb. rewrite process_paragraph_split.
  destruct (deletions_loop_bound (paragraph_text paragraph)
              (paragraph_insertions paragraph (var_unique_id st))
              (paragraph_deletions paragraph (var_unique_id st)) st Hb)
    as (st1 & -> & Hb1).
  apply insertions_loop_bound, Hb1.
Qed.

Lemma paragraphs_bound paragraphs st :
  context_bound st ->
  exists st', for_each paragraphs process_paragraph st = inr (tt, st').
Proof.
  revert st. induction paragraphs as [|p paragraphs IH]; intros st Hb.
  - exists st. reflexivity.
  - destruct (process_paragraph_bound p st Hb) as (st1 & Hp & Hb1).
    rewrite for_each_cons, Hp. apply IH, Hb1.
Qed.

(** A paragraph met while nothing has been assigned yet: without marks it
    changes nothing, with a whitespace-only first deletion it raises, and
    otherwise it leaves both variables assigned. *)
Lemma process_paragraph_initial paragraph :
  match paragraph_deletions paragraph 1, paragraph_insertions paragraph 1 with
  | [], [] => process_paragraph paragraph initial_locals = inr (tt, initial_locals)
  | [], _ :: _ =>
      exists st', process_paragraph paragraph initial_locals = inr (tt, st')
                  /\ context_bound st'
  | d :: _, _ =>
      if all_space d.2
      then process_paragraph paragraph initial_locals
           = inl (UnboundLocalError "original_partial")
      else exists st', process_paragraph paragraph initial_locals = inr (tt, st')
                       /\ context_bound st'
  end.
Proof.
  rewrite process_paragraph_split. cbn [var_unique_id initial_locals].
  destruct (paragraph_deletions paragraph 1) as [|d deletions] eqn:Hdel.
  - destruct (paragraph_insertions paragraph 1) as [|i insertions] eqn:Hins;
      [reflexivity|].
    change (for_each [] (process_deletion (paragraph_text paragraph) (i :: insertions))
              initial_locals) with (@inr exn _ (tt, initial_locals)).
    cbv iota. rewrite for_each_cons.
    destruct (process_insertion_inr (paragraph_text paragraph) [] i initial_locals)
      as (st1 & Hi & _).
    rewrite Hi.
    apply insertions_loop_bound.
    apply process_insertion_state in Hi as [[Hany _]|[_ (r & -> & _)]];
      [discriminate|split; cbn; eauto].
  - rewrite for_each_cons. destruct (all_space d.2) eqn:Hblank.
    + rewrite process_deletion_blank_unbound by (assumption || reflexivity).
      reflexivity.
    + destruct (process_deletion_bound (paragraph_text paragraph)
                  (paragraph_insertions paragraph 1) d initial_locals
                  (or_intror Hblank)) as (st1 & -> & Hb1).
      destruct (deletions_loop_bound (paragraph_text paragraph)
                  (paragraph_insertions paragraph 1) deletions st1 Hb1)
        as (st2 & -> & Hb2).
      apply insertions_loop_bound, Hb2.
Qed.

Lemma paragraphs_raise paragraphs e :
  for_each paragraphs process_paragraph initial_locals = inl e <->
  e = UnboundLocalError "original_partial"
  /\ exists pre p post d rest,
      paragraphs = pre ++ p :: post
      /\ Forall (fun q => paragraph_deletions q 1 = []
                          /\ paragraph_insertions q 1 = []) pre
      /\ paragraph_deletions p 1 = d :: rest
      /\ all_space d.2 = true.
Proof.
  induction paragraphs as [|p paragraphs IH].
  - split; [discriminate|]. intros (_ & pre & q & post & d & rest & H & _).
    destruct pre; discriminate.
  - rewrite for_each_cons. pose proof (process_paragraph_initial p) as Hp.
    destruct (paragraph_deletions p 1) as [|d deletions] eqn:Hdel.
    + destruct (paragraph_insertions p 1) as [|i insertions] eqn:Hins.
      * rewrite Hp, IH. split.
        -- intros (-> & pre & q & post & d & rest & -> & Hpre & Hq & Hd).
           split; [reflexivity|].
           exists (p :: pre), q, post, d, rest.
           split; [reflexivity|]. split; [|split; assumption].
           constructor; [split; assumption|exact Hpre].
        -- intros (-> & pre & q & post & d & rest & Heq & Hpre & Hq & Hd).
           split; [reflexivity|]. destruct pre as [|p' pre].
           ++ injection Heq as <- _. congruence.
           ++ injection Heq as <- ->. apply Forall_cons in Hpre as [_ Hpre].
              exists pre, q, post, d, rest. auto.
      * destruct Hp as (st1 & -> & Hb1).
        destruct (paragraphs_bound paragraphs st1 Hb1) as (st' & ->).
        split; [discriminate|].
        intros (_ & pre & q & post & d & rest & Heq & Hpre & Hq & Hd).
        destruct pre as [|p' pre].
        -- injection Heq as <- _. congruence.
        -- injection Heq as <- _. apply Forall_cons in Hpre as [[_ H] _]. congruence.
    + destruct (all_space d.2) eqn:Hblank.
      * rewrite Hp. split.
        -- intros [= <-]. split; [reflexivity|].
           exists [], p, paragraphs, d, deletions. auto.
        -- intros [-> _]. reflexivity.
      * destruct Hp as (st1 & -> & Hb1).
        destruct (paragraphs_bound paragraphs st1 Hb1) as (st' & ->).
        split; [discriminate|].
        intros (_ & pre & q & post & d' & rest & Heq & Hpre & Hq & Hd).
        destruct pre as [|p' pre].
        -- injection Heq as <- _. rewrite Hdel in Hq. injection Hq as <- _. congruence.
        -- injection Heq as <- _. apply Forall_cons in Hpre as [[H _] _]. congruence.
Qed.

End RaiseFacts.

(** X10. The extraction raises exactly when the first edit of the document
    is a whitespace-only deletion: some paragraph has a merged-deletion
    list that starts with such a deletion and no paragraph before it has a
    deletion or an insertion. The exception is then [UnboundLocalError] for
    [original_partial]; there is no other way to fail. *)
Theorem extraction_raises_iff (root : Element) (e : exn) :
  extract_tracked_changes root = inl e <->
  e = UnboundLocalError "original_partial"
  /\ exists pre p post d rest,
      findall root "p" = pre ++ p :: post
      /\ Forall (fun q => paragraph_deletions q 1 = []
                          /\ paragraph_insertions q 1 = []) pre
      /\ paragraph_deletions p 1 = d :: rest
      /\ all_space d.2 = true.
Proof.
  rewrite <- paragraphs_raise. unfold extract_tracked_changes.
  destruct (for_each (findall root "p") process_paragraph initial_locals)
    as [e'|[[] st']]; split; congruence.
Qed.

Lemma extraction_raises_iff_witness :
  extract_tracked_changes
    (document [para [run_t "no edits"];
               para [run_t "a"; del_mark (Some "3") " "; run_t "b"]])
  = inl (UnboundLocalError "original_partial").
Proof.
  apply (proj2 (extraction_raises_iff _ _)). split; [reflexivity|].
  exists [para [run_t "no edits"]],
    (para [run_t "a"; del_mark (Some "3") " "; run_t "b"]), [], ("3", " "), [].
  split; [vm_compute; reflexivity|].
  split; [constructor; [split; vm_compute; reflexivity|constructor]|].
  split; vm_compute; reflexivity.
Defined.

(** ** Rows of whitespace-only deletions *)

Section StaleContextFacts.






End StaleContextFacts.



(** ** The driver *)

Section DriverFacts.

Variable attempt : string -> string -> bool.

(** The two ways the loop over a folder's files ends: at the first wanted_name
    file whose attempt succeeds, or at the end of the files when every
    wanted_name file failed. *)
Lemma scan_folder_outcome publication_folder files st :
  (exists pre file post,
      files = pre ++ file :: post
      /\ wanted_name file = true
      /\ attempt publication_folder file = true
      /\ (forall x, List.In x pre -> wanted_name x = true ->
                    attempt publication_folder x = false)
      /\ scan_folder attempt publication_folder files st
         = mkDriver (S (files_processed st))
             (saved st ++ [(publication_folder, file)])
             (reported st ++ List.filter wanted_name pre))
  \/ ((forall x, List.In x files -> wanted_name x = true ->
                 attempt publication_folder x = false)
      /\ scan_folder attempt publication_folder files st
         = mkDriver (files_processed st) (saved st)
             (reported st ++ List.filter wanted_name files)).
Proof.
  revert st. induction files as [|file files IH]; intros st.
  - right. split; [intros x []|]. cbn. rewrite app_nil_r. destruct st; reflexivity.
  - cbn [scan_folder List.filter]. fold (wanted_name file).
    destruct (wanted_name file) eqn:Hw.
    + destruct (attempt publication_folder file) eqn:Ha.
      * left. exists [], file, files. cbn. rewrite app_nil_r.
        repeat (split; [assumption || reflexivity|]); try reflexivity.
        split; [intros x []|reflexivity].
      * destruct (IH (mkDriver (files_processed st) (saved st)
                        (reported st ++ [file])))
          as [(pre & f & post & -> & Hwf & Haf & Hpre & ->)|[Hall ->]]; cbn.
        -- left. exists (file :: pre), f, post. cbn [List.filter]. rewrite Hw.
           split; [reflexivity|]. split; [exact Hwf|]. split; [exact Haf|].
           split; [|rewrite <- app_assoc; reflexivity].
           intros x [<-|Hx] Hwx; [exact Ha|apply Hpre; assumption].
        -- right. split; [|rewrite <- app_assoc; reflexivity].
           intros x [<-|Hx] Hwx; [exact Ha|apply Hall; assumption].
    + destruct (IH st) as [(pre & f & post & -> & Hwf & Haf & Hpre & ->)|[Hall ->]].
      * left. exists (file :: pre), f, post. cbn [List.filter]. rewrite Hw.
        split; [reflexivity|]. split; [exact Hwf|]. split; [exact Haf|].
        split; [|reflexivity].
        intros x [<-|Hx] Hwx; [congruence|apply Hpre; assumption].
      * right. split; [|reflexivity].
        intros x [<-|Hx] Hwx; [congruence|apply Hall; assumption].
Qed.

(** What a run of the loop over the folders adds to the saved files. *)
Lemma main_loop_saved limit listing st st' :
  main_loop attempt limit listing st = inr st' ->
  exists new,
    saved st' = saved st ++ new
    /\ files_processed st' = files_processed st + length new
    /\ new.*1 `sublist_of` listing.*1
    /\ (files_processed st < limit -> files_processed st' <= limit)
    /\ Forall (fun s =>
                 exists files pre post,
                   List.In (s.1, Some files) listing
                   /\ files = pre ++ s.2 :: post
                   /\ wanted_name s.2 = true
                   /\ attempt s.1 s.2 = true
                   /\ forall x, List.In x pre -> wanted_name x = true ->
                                attempt s.1 x = false) new.
Proof.
  revert st. induction listing as [|[folder [files|]] listing IH]; intros st Hrun.
  - injection Hrun as <-. exists []. rewrite app_nil_r. cbn.
    split; [reflexivity|]. split; [lia|]. split; [constructor|].
    split; [lia|constructor].
  - cbn [main_loop] in Hrun.
    assert (exists here,
               saved (scan_folder attempt folder files st) = saved st ++ here
               /\ files_processed (scan_folder attempt folder files st)
                  = files_processed st + length here
               /\ here.*1 `sublist_of` [folder]
               /\ length here <= 1
               /\ Forall (fun s =>
                            exists pre post,
                              s.1 = folder
                              /\ files = pre ++ s.2 :: post
                              /\ wanted_name s.2 = true
                              /\ attempt s.1 s.2 = true
                              /\ forall x, List.In x pre -> wanted_name x = true ->
                                           attempt s.1 x = false) here)
      as (here & Hs & Hc & Hsub & Hlen & Hhere).
    { destruct (scan_folder_outcome folder files st)
        as [(pre & f & post & Hf & Hwf & Haf & Hpre & ->)|[Hall ->]]; cbn.
      - exists [(folder, f)]. cbn. split; [reflexivity|]. split; [lia|].
        split; [reflexivity|]. split; [lia|].
        constructor; [|constructor]. exists pre, post. cbn. auto.
      - exists []. cbn. rewrite app_nil_r. split; [reflexivity|]. split; [lia|].
        split; [apply sublist_nil_l|]. split; [lia|constructor]. }
    assert (Forall (fun s =>
                      exists files0 pre post,
                        List.In (s.1, Some files0) ((folder, Some files) :: listing)
                        /\ files0 = pre ++ s.2 :: post
                        /\ wanted_name s.2 = true
                        /\ attempt s.1 s.2 = true
                        /\ forall x, List.In x pre -> wanted_name x = true ->
                                     attempt s.1 x = false) here) as Hhere'.
    { eapply Forall_impl; [exact Hhere|].
      intros s (pre & post & Hfolder & Hrest). exists files, pre, post.
      split; [left; rewrite Hfolder; reflexivity|exact Hrest]. }
    destruct (Nat.leb_spec limit (files_processed (scan_folder attempt folder files st)))
      as [Hle|Hgt].
    + injection Hrun as <-. exists here.
      split; [exact Hs|]. split; [exact Hc|].
      split; [cbn; etransitivity; [exact Hsub|];
              apply sublist_skip, sublist_nil_l|].
      split; [intros Hlt; lia|exact Hhere'].
    + destruct (IH _ Hrun) as (new & Hs' & Hc' & Hsub' & Hlim & Hnew).
      exists (here ++ new).
      split; [rewrite Hs', Hs, <- app_assoc; reflexivity|].
      split; [rewrite Hc', Hc, length_app; lia|].
      split; [rewrite fmap_app; cbn [fmap list_fmap fst];
              apply (sublist_app _ [folder] _ (listing.*1)); assumption|].
      split; [intros _; apply Hlim; exact Hgt|].
      apply Forall_app. split; [exact Hhere'|].
      eapply Forall_impl; [exact Hnew|].
      intros s (files0 & pre & post & Hin & Hrest). exists files0, pre, post.
      split; [right; exact Hin|exact Hrest].
  - discriminate.
Qed.

Lemma main_loop_app_stop limit listing1 listing2 st st' :
  files_processed st < limit ->
  main_loop attempt limit listing1 st = inr st' ->
  limit <= files_processed st' ->
  main_loop attempt limit (listing1 ++ listing2) st = inr st'.
Proof.
  revert st. induction listing1 as [|[folder [files|]] listing1 IH];
    intros st Hlt Hrun Hfull.
  - injection Hrun as <-. lia.
  - cbn [main_loop app] in Hrun |- *.
    destruct (Nat.leb_spec limit (files_processed (scan_folder attempt folder files st)))
      as [Hle|Hgt]; [exact Hrun|].
    apply IH; assumption.
  - discriminate.
Qed.

End DriverFacts.

(** X12. A run of the driver that ends normally has saved at most
    [max_files] = 10 tables, as many as its counter says, and at most one
    per folder: the folders of the saved files are a sublist of the listed
    names, in the order of the listing. *)
Theorem main_saves_one_table_per_folder (attempt : string -> string -> bool)
    (listing : list (string * option (list string))) (st : driver) :
  main attempt listing = inr st ->
  files_processed st = length (saved st)
  /\ length (saved st) <= max_files
  /\ (saved st).*1 `sublist_of` listing.*1.
Proof.
  intros Hrun. unfold main in Hrun.
  destruct (main_loop_saved attempt _ _ _ _ Hrun)
    as (new & Hs & Hc & Hsub & Hlim & _).
  cbn in Hs, Hc, Hlim. rewrite Hs.
  split; [exact Hc|]. split; [|exact Hsub].
  rewrite <- Hc. apply Hlim. unfold max_files. lia.
Qed.

Lemma main_saves_one_table_per_folder_witness :
  exists st,
    main sample_attempt sample_listing = inr st
    /\ saved st = [("pub1", "CORR_b.docx"); ("pub3", "CORR_b.docx")]
    /\ reported st = ["CORR_a.docx"]
    /\ files_processed st = length (saved st).
Proof.
  eexists. split; [vm_compute; reflexivity|].
  split; [reflexivity|]. split; [reflexivity|].
  refine (proj1 (main_saves_one_table_per_folder sample_attempt sample_listing _ _)).
  vm_compute. reflexivity.
Defined.

(** X13. Every file the driver saves a table for is named [CORR_....docx],
    its attempt succeeded, and in its folder's listing every file before it
    with such a name was attempted and failed: the table of a folder comes
    from the first file of that name that can be processed, and a failing
    file does not end the run. *)
Theorem main_saves_first_processable_file (attempt : string -> string -> bool)
    (listing : list (string * option (list string))) (st : driver)
    (folder file : string) :
  main attempt listing = inr st ->
  List.In (folder, file) (saved st) ->
  str_endswith file ".docx" = true
  /\ PyStr.startswith file "CORR_" = true
  /\ attempt folder file = true
  /\ exists files pre post,
      List.In (folder, Some files) listing
      /\ files = pre ++ file :: post
      /\ forall x, List.In x pre ->
                   str_endswith x ".docx" && PyStr.startswith x "CORR_" = true ->
                   attempt folder x = false.
Proof.
  intros Hrun Hin. unfold main in Hrun.
  destruct (main_loop_saved attempt _ _ _ _ Hrun) as (new & Hs & _ & _ & _ & Hnew).
  cbn in Hs. rewrite Hs in Hin. rewrite Forall_forall in Hnew.
  apply list_elem_of_In, Hnew in Hin.
  destruct Hin as (files & pre & post & Hl & Hf & Hw & Ha & Hpre). cbn in *.
  apply andb_true_iff in Hw as [Hw1 Hw2].
  split; [exact Hw1|]. split; [exact Hw2|]. split; [exact Ha|].
  exists files, pre, post. auto.
Qed.

Lemma main_saves_first_processable_file_witness :
  sample_attempt "pub1" "CORR_b.docx" = true.
Proof.
  pose proof (fun st => main_saves_first_processable_file
                          sample_attempt sample_listing st "pub1" "CORR_b.docx") as T.
  edestruct T as (_ & _ & H & _).
  - vm_compute. reflexivity.
  - left. reflexivity.
  - exact H.
Defined.

(** X14. Once the counter has reached [max_files] the driver looks at no
    further name: whatever follows in the listing, also a name whose
    listing would raise, the run ends in the same state. *)
Theorem main_stops_at_limit (attempt : string -> string -> bool)
    (listing more : list (string * option (list string))) (st : driver) :
  main attempt listing = inr st ->
  files_processed st = max_files ->
  main attempt (listing ++ more) = inr st.
Proof.
  intros Hrun Hfull. unfold main in *.
  apply main_loop_app_stop; [cbn; unfold max_files; lia|exact Hrun|lia].
Qed.

Lemma main_stops_at_limit_witness :
  exists st,
    main sample_attempt full_listing = inr st
    /\ main sample_attempt (full_listing ++ [("not a folder", None)]) = inr st.
Proof.
  eexists. split; [vm_compute; reflexivity|].
  apply main_stops_at_limit; vm_compute; reflexivity.
Defined.

(** ** Empty tables and the original context *)

Section TableFacts.

Lemma standalone_no_deletions insertions : standalone [] insertions = insertions.
Proof.
  unfold standalone. induction insertions as [|i l IH]; [reflexivity|].
  cbn [List.filter any_deletion existsb negb]. f_equal. exact IH.
Qed.

Lemma paragraphs_without_marks paragraphs :
  Forall (fun q => paragraph_deletions q 1 = [] /\ paragraph_insertions q 1 = [])
    paragraphs ->
  for_each paragraphs process_paragraph initial_locals = inr (tt, initial_locals).
Proof.
  induction 1 as [|p paragraphs [Hd Hi] _ IH]; [reflexivity|].
  rewrite for_each_cons. pose proof (process_paragraph_initial p) as Hp.
  rewrite Hd, Hi in Hp. rewrite Hp. exact IH.
Qed.

(** A paragraph with a mark adds a row to the empty table. *)
Lemma process_paragraph_adds_row paragraph st' :
  process_paragraph paragraph initial_locals = inr (tt, st') ->
  paragraph_deletions paragraph 1 <> [] \/ paragraph_insertions paragraph 1 <> [] ->
  var_data st' <> [].
Proof.
  intros Hrun Hmarks.
  destruct (process_paragraph_rows _ _ _ Hrun)
    as (del_rows & ins_rows & Hdata & Hdel & Hins & _).
  cbn [var_data var_unique_id initial_locals] in Hdata, Hdel, Hins.
  apply Forall2_length in Hdel. apply Forall2_length in Hins.
  intros Hnil. rewrite Hnil in Hdata. change ([] ++ del_rows ++ ins_rows)
    with (del_rows ++ ins_rows) in Hdata.
  symmetry in Hdata. apply app_eq_nil in Hdata as [-> ->].
  cbn in Hdel, Hins.
  destruct (paragraph_deletions paragraph 1) as [|d l]; [|discriminate].
  rewrite standalone_no_deletions in Hins.
  destruct (paragraph_insertions paragraph 1) as [|i l]; [|discriminate].
  destruct Hmarks as [H|H]; apply H; reflexivity.
Qed.

Lemma paragraphs_keep_rows paragraphs st st' :
  var_data st <> [] ->
  for_each paragraphs process_paragraph st = inr (tt, st') ->
  var_data st' <> [].
Proof.
  apply (for_each_invariant (fun s => var_data s <> [])).
  intros p s s' _ Hs Hp.
  destruct (process_paragraph_rows _ _ _ Hp) as (dr & ir & -> & _).
  intros H. apply app_eq_nil in H as [H _]. contradiction.
Qed.

Lemma get_surrounding_text_not_found text target window first :
  head (PyStr.split target) = Some first ->
  ~ List.In first (PyStr.split text) ->
  get_surrounding_text text target window = text.
Proof.
  intros Hhead Hnot. unfold get_surrounding_text.
  destruct (PyStr.truthy (PyStr.strip target)); [|reflexivity]. cbn.
  destruct (PyStr.split target) as [|x rest]; [reflexivity|].
  injection Hhead as ->. apply index_None in Hnot. rewrite Hnot. reflexivity.
Qed.

End TableFacts.

(** X15. The extraction returns the empty table exactly when no paragraph
    of the document has a deletion or an insertion mark with text. *)
Theorem empty_table_iff_no_marks (root : Element) :
  extract_tracked_changes root = inr [] <->
  Forall (fun q => paragraph_deletions q 1 = [] /\ paragraph_insertions q 1 = [])
    (findall root "p").
Proof.
  unfold extract_tracked_changes. split.
  - destruct (for_each (findall root "p") process_paragraph initial_locals)
      as [e|[[] st']] eqn:Hrun; [discriminate|].
    intros [= Hnil]. revert Hrun.
    induction (findall root "p") as [|p paragraphs IH]; intros Hrun; [constructor|].
    rewrite for_each_cons in Hrun.
    destruct (process_paragraph p initial_locals) as [e|[[] st1]] eqn:Hp;
      [discriminate|].
    destruct (paragraph_deletions p 1) as [|d l] eqn:Hd.
    + destruct (paragraph_insertions p 1) as [|i l] eqn:Hi.
      * pose proof (process_paragraph_initial p) as Hp'.
        rewrite Hd, Hi, Hp in Hp'. injection Hp' as ->.
        constructor; [split; assumption|]. apply IH, Hrun.
      * exfalso. apply (paragraphs_keep_rows paragraphs st1 st'); [|exact Hrun|exact Hnil].
        apply (process_paragraph_adds_row p); [exact Hp|].
        right. rewrite Hi. discriminate.
    + exfalso. apply (paragraphs_keep_rows paragraphs st1 st'); [|exact Hrun|exact Hnil].
      apply (process_paragraph_adds_row p); [exact Hp|].
      left. rewrite Hd. discriminate.
  - intros H. rewrite (paragraphs_without_marks _ H). reflexivity.
Qed.

Lemma empty_table_iff_no_marks_witness :
  extract_tracked_changes
    (document [para [run_t "no edits"]; para [run_t "none "; run_t "here"]])
  = inr [].
Proof.
  apply (proj2 (empty_table_iff_no_marks _)).
  repeat constructor.
Defined.

(** X16. The original context of a row is a window of the row's own
    original sentence with the default width 5: around the original snippet
    when the row has one that is not made of whitespace only, around the
    correction when the row is an insertion. So when the first word of that
    snippet is not one of the words of the sentence, the context is the
    whole sentence. *)
Theorem original_context_of_own_sentence (root : Element)
    (data : list ChangeRecord) (r : ChangeRecord) :
  extract_tracked_changes root = inr data ->
  List.In r data ->
  (forall o, original_single r = Some o -> all_space o = false ->
             original_partial r
             = get_surrounding_text (original_sentence r) o default_window
             /\ (forall w, head (PyStr.split o) = Some w ->
                           ~ List.In w (PyStr.split (original_sentence r)) ->
                           original_partial r = original_sentence r))
  /\ (forall c, original_single r = None -> correction_single r = Some c ->
                original_partial r
                = get_surrounding_text (original_sentence r) c default_window).
Proof.
  intros Hrun Hr. apply extract_rows in Hrun as [Hem _].
  rewrite Forall_forall in Hem. apply list_elem_of_In, Hem in Hr.
  destruct Hr as (paragraph & uid & [(d & _ & Hrow)|(i & _ & Hrow)]).
  - destruct Hrow as (Ho & Hs & _ & _ & _ & Hstrip). split.
    + intros o Ho' Hblank. rewrite Ho in Ho'. injection Ho' as <-.
      destruct Hstrip as [Hop _].
      * destruct (PyStr.truthy (PyStr.strip d.2)) eqn:E; [reflexivity|].
        apply strip_empty in E. congruence.
      * rewrite Hs. split; [exact Hop|]. intros w Hw Hnot.
        rewrite Hop. apply (get_surrounding_text_not_found _ _ _ w); assumption.
    + intros c Ho'. congruence.
  - destruct Hrow as (Ho & Hs & Hc & _ & Hop & _). split.
    + intros o Ho'. congruence.
    + intros c _ Hc'. rewrite Hc in Hc'. injection Hc' as <-. rewrite Hs. exact Hop.
Qed.

Lemma original_context_of_own_sentence_witness :
  exists data r,
    extract_tracked_changes sample_document = inr data
    /\ data !! 1 = Some r
    /\ original_single r = Some "sat"
    /\ original_partial r = original_sentence r.
Proof.
  eexists. eexists. split; [vm_compute; reflexivity|].
  split; [reflexivity|]. split; [reflexivity|].
  refine (proj2 (proj1 (original_context_of_own_sentence sample_document _ _ _ _)
                   "sat" _ _) "sat" _ _).
  - vm_compute. reflexivity.
  - right. left. reflexivity.
  - reflexivity.
  - reflexivity.
  - reflexivity.
  - vm_compute. intuition discriminate.
Defined.
